(** * Lumi voice assistant: audio codec, playback scheduler and session handlers

    A shallow embedding of [src/App.tsx] (with [src/types.ts]): the audio
    helpers [decode], [encode], [decodeAudioData], the capture callback
    [onaudioprocess], the transport callbacks [onopen], [onmessage], [onerror],
    [onclose] and the handlers [stopAllAudio], [handleSendText],
    [handleStartSession], [handleStopSession].

    Conventions of the embedding.
    - JavaScript numbers that carry audio samples or clock times are modelled
      as rationals [Q]: every finite float is a dyadic rational, scaling by
      32768 and dividing an int16 by 32768 are exact, and the scheduler only
      compares and adds times.  NaN and the infinities are outside the model,
      and so is the rounding of the watermark additions.
    - Strings are sequences of 8-bit code units ([string]), the range of the
      binary strings that [btoa] and [atob] exchange.
    - Typed arrays over one buffer see its bytes in little-endian order, the
      byte order of the platforms the component runs on.
    - React state and refs of the component are the fields of one record
      [App]; the effects on the outside world (transport sends, closed
      sessions, started and stopped audio sources, console output) are logged
      in further fields of the same record.
    - Values that only the environment knows (the output clock,
      [Math.random], [Date], whether a transport call throws) are arguments of
      the handler.
    - [onmessage] suspends at an [await]: it is given as the whole handler,
      for a run in which nothing else happens meanwhile, and in two parts
      ([onmessage_begin], [onmessage_resume]) that [interleave] runs with
      other handlers in between.  [handleStartSession] is given in the two
      parts before and after its awaits. *)

From Stdlib Require Import ZArith QArith Qminmax Qabs List Bool String Ascii Lia Lqa.
From Stdlib.Strings Require Import Byte.
Import ListNotations.

Open Scope Z_scope.

(** ** Exceptions *)

Inductive JsError : Type :=
| InvalidCharacterError
| RangeError
| NotSupportedError
| InvalidStateError
| TypeError
| TransportError.

Inductive Exc (A : Type) : Type :=
| Ok (a : A)
| Throw (e : JsError).

Arguments Ok {A} a.
Arguments Throw {A} e.

Definition bind {A B : Type} (m : Exc A) (k : A -> Exc B) : Exc B :=
  match m with
  | Ok a => k a
  | Throw e => Throw e
  end.

Notation "'let*' x ':=' m 'in' k" := (bind m (fun x => k))
  (at level 10, x name, m at level 100, k at level 200).

(** ** Platform: [btoa] and [atob]

    The two browser builtins are not code of the repository; they are modelled
    after RFC 4648 (encoding) and the forgiving-base64 decode of the WHATWG
    Infra standard (decoding). *)

Definition code (c : ascii) : Z := Z.of_N (N_of_ascii c).
Definition chr (z : Z) : ascii := ascii_of_N (Z.to_N z).

Definition b64_alphabet : list ascii :=
  list_ascii_of_string
    "ABCDEFGHIJKLMNOPQRSTUVWXYZabcdefghijklmnopqrstuvwxyz0123456789+/".

Definition b64_char (n : Z) : ascii := nth (Z.to_nat n) b64_alphabet "="%char.

Fixpoint index_from (c : ascii) (l : list ascii) (i : Z) : option Z :=
  match l with
  | [] => None
  | x :: r => if Ascii.eqb c x then Some i else index_from c r (i + 1)
  end.

Definition b64_index (c : ascii) : option Z := index_from c b64_alphabet 0.

Fixpoint to_sextets (bs : list Z) : list Z :=
  match bs with
  | a :: b :: c :: rest =>
      a / 4 :: (a mod 4) * 16 + b / 16 :: (b mod 16) * 4 + c / 64 :: c mod 64
        :: to_sextets rest
  | [a; b] => [a / 4; (a mod 4) * 16 + b / 16; (b mod 16) * 4]
  | [a] => [a / 4; (a mod 4) * 16]
  | [] => []
  end.

Fixpoint from_sextets (sx : list Z) : list Z :=
  match sx with
  | s1 :: s2 :: s3 :: s4 :: rest =>
      s1 * 4 + s2 / 16 :: (s2 mod 16) * 16 + s3 / 4 :: (s3 mod 4) * 64 + s4
        :: from_sextets rest
  | [s1; s2; s3] => [s1 * 4 + s2 / 16; (s2 mod 16) * 16 + s3 / 4]
  | [s1; s2] => [s1 * 4 + s2 / 16]
  | _ => []
  end.

Definition b64_padding (n : nat) : list ascii :=
  match (n mod 3)%nat with
  | 1%nat => ["="; "="]%char
  | 2%nat => ["="]%char
  | _ => []
  end.

Definition btoa (binary : string) : string :=
  let bs := map code (list_ascii_of_string binary) in
  string_of_list_ascii (map b64_char (to_sextets bs) ++ b64_padding (List.length bs)).

(** ASCII whitespace: tab, line feed, form feed, carriage return, space. *)
Definition is_ascii_whitespace (c : ascii) : bool :=
  let n := code c in
  (n =? 9) || (n =? 10) || (n =? 12) || (n =? 13) || (n =? 32).

Definition is_pad (c : ascii) : bool := Ascii.eqb c "=".

(** Removes one or two trailing padding characters. *)
Definition strip_padding (d : list ascii) : list ascii :=
  match rev d with
  | c1 :: c2 :: r =>
      if is_pad c1 then (if is_pad c2 then rev r else rev (c2 :: r)) else d
  | [c1] => if is_pad c1 then [] else d
  | [] => d
  end.

Fixpoint indices (d : list ascii) : option (list Z) :=
  match d with
  | [] => Some []
  | c :: r =>
      match b64_index c, indices r with
      | Some i, Some l => Some (i :: l)
      | _, _ => None
      end
  end.

Definition atob (data : string) : option string :=
  let d := filter (fun c => negb (is_ascii_whitespace c)) (list_ascii_of_string data) in
  let d := if (List.length d mod 4 =? 0)%nat then strip_padding d else d in
  if (List.length d mod 4 =? 1)%nat then None
  else match indices d with
       | None => None
       | Some sx => Some (string_of_list_ascii (map chr (from_sextets sx)))
       end.

(** ** Typed arrays *)

Definition Uint8Array := list byte.
Definition Int16Array := list Z.
Definition Float32Array := list Q.

Definition byte_val (b : byte) : Z := Z.of_N (Byte.to_N b).
Definition byte_of_val (z : Z) : byte := byte_of_ascii (chr (z mod 256)).

(** Truncation of a number toward zero. *)
Definition trunc (q : Q) : Z := Z.quot (Qnum q) (Z.pos (Qden q)).

(** The conversion applied by a store into an [Int16Array]: truncate, reduce
    modulo 2^16, reinterpret as signed. *)
Definition ToInt16 (q : Q) : Z :=
  let m := trunc q mod 65536 in
  if 32768 <=? m then m - 65536 else m.

(** [new Uint8Array(int16.buffer)]: the bytes of the buffer, low byte first. *)
Definition bytes_of_int16 (a : Int16Array) : Uint8Array :=
  flat_map (fun v => let u := v mod 65536 in [byte_of_val (u mod 256); byte_of_val (u / 256)]) a.

(** [new Int16Array(data.buffer)]: a RangeError when the byte length is odd. *)
Fixpoint int16_of_bytes (data : Uint8Array) : Exc Int16Array :=
  match data with
  | [] => Ok []
  | [_] => Throw RangeError
  | lo :: hi :: rest =>
      let u := byte_val lo + 256 * byte_val hi in
      let v := if 32768 <=? u then u - 65536 else u in
      let* r := int16_of_bytes rest in Ok (v :: r)
  end.

(** ** Audio helpers of [App.tsx] *)

Definition decode (base64 : string) : Exc Uint8Array :=
  match atob base64 with
  | None => Throw InvalidCharacterError
  | Some binaryString => Ok (map byte_of_ascii (list_ascii_of_string binaryString))
  end.

Definition encode (bytes : Uint8Array) : string :=
  let binary :=
    fold_left (fun binary b => (binary ++ String (ascii_of_byte b) EmptyString)%string)
              bytes EmptyString in
  btoa binary.

Record AudioBuffer : Type := mkAudioBuffer {
  numberOfChannels : nat;
  length_frames : nat;
  sampleRate : Z;
  channels : list Float32Array
}.

Definition duration (b : AudioBuffer) : Q :=
  Z.of_nat (length_frames b) # Z.to_pos (sampleRate b).

(** The channel counts and sample rates that every audio context has to
    accept: 1 to 32 channels, 8000 to 96000 Hz.  A context may accept more;
    the model accepts exactly these. *)
Definition supported_channels (numChannels : nat) : bool :=
  ((1 <=? numChannels) && (numChannels <=? 32))%nat.

Definition supported_rate (rate : Z) : bool := (8000 <=? rate) && (rate <=? 96000).

(** [ctx.createBuffer]: a NotSupportedError for a channel count, a frame
    count or a sample rate that is zero or outside its range. *)
Definition createBuffer (numChannels frameCount : nat) (rate : Z) : Exc unit :=
  if negb (supported_channels numChannels) || (frameCount =? 0)%nat
     || negb (supported_rate rate)
  then Throw NotSupportedError else Ok tt.

Definition decodeAudioData (data : Uint8Array) (rate : Z) (numChannels : nat)
  : Exc AudioBuffer :=
  let* dataInt16 := int16_of_bytes data in
  let frameCount := (List.length dataInt16 / numChannels)%nat in
  let* _ := createBuffer numChannels frameCount rate in
  let channelData (channel : nat) : Float32Array :=
    map (fun i => nth (i * numChannels + channel) dataInt16 0 # 32768)
        (seq 0 frameCount) in
  Ok (mkAudioBuffer numChannels frameCount rate
        (map channelData (seq 0 numChannels))).

(** The sample loop of [onaudioprocess] and the chunk it hands to the
    transport. *)
Definition pcm16 (inputData : Float32Array) : Int16Array :=
  map (fun x => ToInt16 (x * 32768)) inputData.

Record Blob : Type := mkBlob { blob_data : string; mimeType : string }.

Definition pcmBlob (inputData : Float32Array) : Blob :=
  mkBlob (encode (bytes_of_int16 (pcm16 inputData))) "audio/pcm;rate=16000".

(** ** Data model ([types.ts] and the transport messages) *)

Inductive ConnectionStatus : Type := DISCONNECTED | CONNECTING | CONNECTED | ERROR.

Inductive Role : Type := user | assistant.

Record Message : Type := mkMessage {
  id : string;
  role : Role;
  text : string;
  timestamp : Z
}.

(** [LiveServerMessage], with the optional fields the handler reads. *)
Record Transcription : Type := mkTranscription { tr_text : option string }.
Record InlineData : Type := mkInlineData { data : option string }.
Record Part : Type := mkPart { inlineData : option InlineData }.
Record Content : Type := mkContent { parts : option (list Part) }.

Record ServerContent : Type := mkServerContent {
  outputTranscription : option Transcription;
  inputTranscription : option Transcription;
  turnComplete : bool;
  interrupted : bool;
  modelTurn : option Content
}.

Record LiveServerMessage : Type := mkLiveServerMessage {
  serverContent : option ServerContent
}.

Record Session : Type := mkSession { session_id : nat }.

Inductive RealtimeInput : Type :=
| TextInput (t : string)
| MediaInput (media : Blob).

Record AudioContext : Type := mkAudioContext { ctx_sampleRate : Z }.

Record AudioBufferSourceNode : Type := mkSource {
  node_id : nat;
  node_buffer : AudioBuffer;
  node_started : bool
}.

(** The capture node together with the session its callback closes over. *)
Record ScriptProcessorNode : Type := mkProcessor {
  sp_id : nat;
  sp_session : Session
}.

(** One call of [source.start(when)], with the output clock at the call. *)
Record StartCall : Type := mkStartCall {
  sc_source : nat;
  sc_when : Q;
  sc_duration : Q;
  sc_clock : Q
}.

Inductive LogLevel : Type := LogInfo | LogError.

(** What the environment decides for one handler run. *)
Record Env : Type := mkEnv {
  currentTime : Q;
  random_id : string;
  now : Z;
  send_throws : bool;
  close_throws : bool
}.

Record App : Type := mkApp {
  (* React state *)
  messages : list Message;
  status : ConnectionStatus;
  isSpeaking : bool;
  isListening : bool;
  inputText : string;
  (* refs *)
  audioContextRef : option AudioContext;
  outputAudioContextRef : option AudioContext;
  nextStartTimeRef : Q;
  activeSourcesRef : list AudioBufferSourceNode;
  sessionRef : option Session;
  scriptProcessorRef : option ScriptProcessorNode;
  currentInputTranscriptionRef : string;
  currentOutputTranscriptionRef : string;
  (* the outside world, as a log of the calls made on it *)
  console : list (LogLevel * string);
  transport : list (Session * RealtimeInput);
  closed : list Session;
  disconnected : list ScriptProcessorNode;
  audioOut : list StartCall;
  audioStops : list nat;
  allocated : nat
}.

(** Field updates. *)
Definition set_messages (v : list Message) (s : App) : App :=
  mkApp v (status s) (isSpeaking s) (isListening s) (inputText s) (audioContextRef s)
    (outputAudioContextRef s) (nextStartTimeRef s) (activeSourcesRef s) (sessionRef s)
    (scriptProcessorRef s) (currentInputTranscriptionRef s)
    (currentOutputTranscriptionRef s) (console s) (transport s) (closed s)
    (disconnected s) (audioOut s) (audioStops s) (allocated s).

Definition set_status (v : ConnectionStatus) (s : App) : App :=
  mkApp (messages s) v (isSpeaking s) (isListening s) (inputText s)
    (audioContextRef s) (outputAudioContextRef s) (nextStartTimeRef s)
    (activeSourcesRef s) (sessionRef s) (scriptProcessorRef s)
    (currentInputTranscriptionRef s) (currentOutputTranscriptionRef s) (console s)
    (transport s) (closed s) (disconnected s) (audioOut s) (audioStops s)
    (allocated s).

Definition set_isSpeaking (v : bool) (s : App) : App :=
  mkApp (messages s) (status s) v (isListening s) (inputText s) (audioContextRef s)
    (outputAudioContextRef s) (nextStartTimeRef s) (activeSourcesRef s) (sessionRef s)
    (scriptProcessorRef s) (currentInputTranscriptionRef s)
    (currentOutputTranscriptionRef s) (console s) (transport s) (closed s)
    (disconnected s) (audioOut s) (audioStops s) (allocated s).

Definition set_isListening (v : bool) (s : App) : App :=
  mkApp (messages s) (status s) (isSpeaking s) v (inputText s) (audioContextRef s)
    (outputAudioContextRef s) (nextStartTimeRef s) (activeSourcesRef s) (sessionRef s)
    (scriptProcessorRef s) (currentInputTranscriptionRef s)
    (currentOutputTranscriptionRef s) (console s) (transport s) (closed s)
    (disconnected s) (audioOut s) (audioStops s) (allocated s).

Definition set_inputText (v : string) (s : App) : App :=
  mkApp (messages s) (status s) (isSpeaking s) (isListening s) v (audioContextRef s)
    (outputAudioContextRef s) (nextStartTimeRef s) (activeSourcesRef s) (sessionRef s)
    (scriptProcessorRef s) (currentInputTranscriptionRef s)
    (currentOutputTranscriptionRef s) (console s) (transport s) (closed s)
    (disconnected s) (audioOut s) (audioStops s) (allocated s).

Definition set_audioContextRef (v : option AudioContext) (s : App) : App :=
  mkApp (messages s) (status s) (isSpeaking s) (isListening s) (inputText s) v
    (outputAudioContextRef s) (nextStartTimeRef s) (activeSourcesRef s) (sessionRef s)
    (scriptProcessorRef s) (currentInputTranscriptionRef s)
    (currentOutputTranscriptionRef s) (console s) (transport s) (closed s)
    (disconnected s) (audioOut s) (audioStops s) (allocated s).

Definition set_outputAudioContextRef (v : option AudioContext) (s : App) : App :=
  mkApp (messages s) (status s) (isSpeaking s) (isListening s) (inputText s)
    (audioContextRef s) v (nextStartTimeRef s) (activeSourcesRef s) (sessionRef s)
    (scriptProcessorRef s) (currentInputTranscriptionRef s)
    (currentOutputTranscriptionRef s) (console s) (transport s) (closed s)
    (disconnected s) (audioOut s) (audioStops s) (allocated s).

Definition set_nextStartTimeRef (v : Q) (s : App) : App :=
  mkApp (messages s) (status s) (isSpeaking s) (isListening s) (inputText s)
    (audioContextRef s) (outputAudioContextRef s) v (activeSourcesRef s)
    (sessionRef s) (scriptProcessorRef s) (currentInputTranscriptionRef s)
    (currentOutputTranscriptionRef s) (console s) (transport s) (closed s)
    (disconnected s) (audioOut s) (audioStops s) (allocated s).

Definition set_activeSourcesRef (v : list AudioBufferSourceNode) (s : App) : App :=
  mkApp (messages s) (status s) (isSpeaking s) (isListening s) (inputText s)
    (audioContextRef s) (outputAudioContextRef s) (nextStartTimeRef s) v
    (sessionRef s) (scriptProcessorRef s) (currentInputTranscriptionRef s)
    (currentOutputTranscriptionRef s) (console s) (transport s) (closed s)
    (disconnected s) (audioOut s) (audioStops s) (allocated s).

Definition set_sessionRef (v : option Session) (s : App) : App :=
  mkApp (messages s) (status s) (isSpeaking s) (isListening s) (inputText s)
    (audioContextRef s) (outputAudioContextRef s) (nextStartTimeRef s)
    (activeSourcesRef s) v (scriptProcessorRef s) (currentInputTranscriptionRef s)
    (currentOutputTranscriptionRef s) (console s) (transport s) (closed s)
    (disconnected s) (audioOut s) (audioStops s) (allocated s).

Definition set_scriptProcessorRef (v : option ScriptProcessorNode) (s : App) : App :=
  mkApp (messages s) (status s) (isSpeaking s) (isListening s) (inputText s)
    (audioContextRef s) (outputAudioContextRef s) (nextStartTimeRef s)
    (activeSourcesRef s) (sessionRef s) v (currentInputTranscriptionRef s)
    (currentOutputTranscriptionRef s) (console s) (transport s) (closed s)
    (disconnected s) (audioOut s) (audioStops s) (allocated s).

Definition set_currentInputTranscriptionRef (v : string) (s : App) : App :=
  mkApp (messages s) (status s) (isSpeaking s) (isListening s) (inputText s)
    (audioContextRef s) (outputAudioContextRef s) (nextStartTimeRef s)
    (activeSourcesRef s) (sessionRef s) (scriptProcessorRef s) v
    (currentOutputTranscriptionRef s) (console s) (transport s) (closed s)
    (disconnected s) (audioOut s) (audioStops s) (allocated s).

Definition set_currentOutputTranscriptionRef (v : string) (s : App) : App :=
  mkApp (messages s) (status s) (isSpeaking s) (isListening s) (inputText s)
    (audioContextRef s) (outputAudioContextRef s) (nextStartTimeRef s)
    (activeSourcesRef s) (sessionRef s) (scriptProcessorRef s)
    (currentInputTranscriptionRef s) v (console s) (transport s) (closed s)
    (disconnected s) (audioOut s) (audioStops s) (allocated s).

Definition set_console (v : list (LogLevel * string)) (s : App) : App :=
  mkApp (messages s) (status s) (isSpeaking s) (isListening s) (inputText s)
    (audioContextRef s) (outputAudioContextRef s) (nextStartTimeRef s)
    (activeSourcesRef s) (sessionRef s) (scriptProcessorRef s)
    (currentInputTranscriptionRef s) (currentOutputTranscriptionRef s) v (transport s)
    (closed s) (disconnected s) (audioOut s) (audioStops s) (allocated s).

Definition set_transport (v : list (Session * RealtimeInput)) (s : App) : App :=
  mkApp (messages s) (status s) (isSpeaking s) (isListening s) (inputText s)
    (audioContextRef s) (outputAudioContextRef s) (nextStartTimeRef s)
    (activeSourcesRef s) (sessionRef s) (scriptProcessorRef s)
    (currentInputTranscriptionRef s) (currentOutputTranscriptionRef s) (console s) v
    (closed s) (disconnected s) (audioOut s) (audioStops s) (allocated s).

Definition set_closed (v : list Session) (s : App) : App :=
  mkApp (messages s) (status s) (isSpeaking s) (isListening s) (inputText s)
    (audioContextRef s) (outputAudioContextRef s) (nextStartTimeRef s)
    (activeSourcesRef s) (sessionRef s) (scriptProcessorRef s)
    (currentInputTranscriptionRef s) (currentOutputTranscriptionRef s) (console s)
    (transport s) v (disconnected s) (audioOut s) (audioStops s) (allocated s).

Definition set_disconnected (v : list ScriptProcessorNode) (s : App) : App :=
  mkApp (messages s) (status s) (isSpeaking s) (isListening s) (inputText s)
    (audioContextRef s) (outputAudioContextRef s) (nextStartTimeRef s)
    (activeSourcesRef s) (sessionRef s) (scriptProcessorRef s)
    (currentInputTranscriptionRef s) (currentOutputTranscriptionRef s) (console s)
    (transport s) (closed s) v (audioOut s) (audioStops s) (allocated s).

Definition set_audioOut (v : list StartCall) (s : App) : App :=
  mkApp (messages s) (status s) (isSpeaking s) (isListening s) (inputText s)
    (audioContextRef s) (outputAudioContextRef s) (nextStartTimeRef s)
    (activeSourcesRef s) (sessionRef s) (scriptProcessorRef s)
    (currentInputTranscriptionRef s) (currentOutputTranscriptionRef s) (console s)
    (transport s) (closed s) (disconnected s) v (audioStops s) (allocated s).

Definition set_audioStops (v : list nat) (s : App) : App :=
  mkApp (messages s) (status s) (isSpeaking s) (isListening s) (inputText s)
    (audioContextRef s) (outputAudioContextRef s) (nextStartTimeRef s)
    (activeSourcesRef s) (sessionRef s) (scriptProcessorRef s)
    (currentInputTranscriptionRef s) (currentOutputTranscriptionRef s) (console s)
    (transport s) (closed s) (disconnected s) (audioOut s) v (allocated s).

Definition set_allocated (v : nat) (s : App) : App :=
  mkApp (messages s) (status s) (isSpeaking s) (isListening s) (inputText s)
    (audioContextRef s) (outputAudioContextRef s) (nextStartTimeRef s)
    (activeSourcesRef s) (sessionRef s) (scriptProcessorRef s)
    (currentInputTranscriptionRef s) (currentOutputTranscriptionRef s) (console s)
    (transport s) (closed s) (disconnected s) (audioOut s) (audioStops s) v.

Definition initialApp : App :=
  mkApp [] DISCONNECTED false false EmptyString None None 0%Q [] None None
        EmptyString EmptyString [] [] [] [] [] [] 0%nat.

(** ** Handlers as state transformers that may throw *)

Definition M (A : Type) : Type := App -> Exc A * App.

Definition ret {A : Type} (a : A) : M A := fun s => (Ok a, s).
Definition throw {A : Type} (e : JsError) : M A := fun s => (Throw e, s).
Definition lift {A : Type} (r : Exc A) : M A := fun s => (r, s).
Definition gets {A : Type} (f : App -> A) : M A := fun s => (Ok (f s), s).
Definition modify (f : App -> App) : M unit := fun s => (Ok tt, f s).

Definition mbind {A B : Type} (m : M A) (k : A -> M B) : M B :=
  fun s =>
    match m s with
    | (Ok a, s') => k a s'
    | (Throw e, s') => (Throw e, s')
    end.

Notation "x <- m ;; k" := (mbind m (fun x => k))
  (at level 61, m at next level, right associativity).
Notation "m ;; k" := (mbind m (fun _ => k))
  (at level 61, right associativity).

(** [try { body } catch (e) { handler e }]: the handler starts from the state
    in which the exception was thrown. *)
Definition try_catch {A : Type} (body : M A) (handler : JsError -> M A) : M A :=
  fun s =>
    match body s with
    | (Ok a, s') => (Ok a, s')
    | (Throw e, s') => handler e s'
    end.

Definition when (b : bool) (m : M unit) : M unit := if b then m else ret tt.

Fixpoint forEach {A : Type} (l : list A) (f : A -> M unit) : M unit :=
  match l with
  | [] => ret tt
  | x :: r => f x ;; forEach r f
  end.

Definition exec {A : Type} (m : M A) (s : App) : App := snd (m s).
Definition result {A : Type} (m : M A) (s : App) : Exc A := fst (m s).

(** ** Platform calls used by the handlers *)

Definition console_log (line : string) : M unit :=
  modify (fun s => set_console (console s ++ [(LogInfo, line)]) s).

Definition console_error (line : string) : M unit :=
  modify (fun s => set_console (console s ++ [(LogError, line)]) s).

(** [session.sendRealtimeInput(input)]. *)
Definition sendRealtimeInput (env : Env) (session : Session) (input : RealtimeInput)
  : M unit :=
  if send_throws env then throw TransportError
  else modify (fun s => set_transport (transport s ++ [(session, input)]) s).

(** [session.close()]. *)
Definition session_close (env : Env) (session : Session) : M unit :=
  if close_throws env then throw TransportError
  else modify (fun s => set_closed (closed s ++ [session]) s).

(** [scriptProcessor.disconnect()]. *)
Definition processor_disconnect (p : ScriptProcessorNode) : M unit :=
  modify (fun s => set_disconnected (disconnected s ++ [p]) s).

(** [ctx.createBufferSource()] with [source.buffer = audioBuffer]: a fresh
    node. *)
Definition createBufferSource (audioBuffer : AudioBuffer) : M AudioBufferSourceNode :=
  n <- gets allocated ;;
  modify (set_allocated (S n)) ;;
  ret (mkSource n audioBuffer false).

(** [activeSourcesRef.current.add(source)] and [.delete(source)]; nodes are
    compared by identity. *)
Definition same_node (a b : AudioBufferSourceNode) : bool :=
  (node_id a =? node_id b)%nat.

Definition set_add (source : AudioBufferSourceNode) (l : list AudioBufferSourceNode)
  : list AudioBufferSourceNode :=
  if existsb (same_node source) l then l else l ++ [source].

Definition set_delete (source : nat) (l : list AudioBufferSourceNode)
  : list AudioBufferSourceNode :=
  filter (fun n => negb (node_id n =? source)%nat) l.

(** [source.start(when)]: the node held by the active set is the node that
    starts. *)
Definition mark_started (source : nat) (n : AudioBufferSourceNode)
  : AudioBufferSourceNode :=
  if (node_id n =? source)%nat then mkSource (node_id n) (node_buffer n) true else n.

Definition source_start (env : Env) (source : AudioBufferSourceNode) (when_ : Q)
  : M unit :=
  modify (fun s => set_activeSourcesRef
                     (map (mark_started (node_id source)) (activeSourcesRef s)) s) ;;
  modify (fun s => set_audioOut
                     (audioOut s ++ [mkStartCall (node_id source) when_
                                       (duration (node_buffer source))
                                       (currentTime env)]) s).

(** [source.stop()]: an InvalidStateError on a node that never started. *)
Definition source_stop (source : AudioBufferSourceNode) : M unit :=
  if node_started source
  then modify (fun s => set_audioStops (audioStops s ++ [node_id source]) s)
  else throw InvalidStateError.

Definition Math_max (a b : Q) : Q := Qmax a b.

(** [s += t] on strings, where [t] may be [undefined]. *)
Definition js_append (s : string) (t : option string) : string :=
  match t with
  | Some x => (s ++ x)%string
  | None => (s ++ "undefined")%string
  end.

Definition truthy (s : string) : bool :=
  match s with
  | EmptyString => false
  | String _ _ => true
  end.

(** [String.prototype.trim] on 8-bit code units: tab, LF, VT, FF, CR, space
    and the no-break space are white space. *)
Definition is_js_whitespace (c : ascii) : bool :=
  let n := code c in
  (n =? 9) || (n =? 10) || (n =? 11) || (n =? 12) || (n =? 13) || (n =? 32)
  || (n =? 160).

Fixpoint trim_start (l : list ascii) : list ascii :=
  match l with
  | [] => []
  | c :: r => if is_js_whitespace c then trim_start r else l
  end.

Definition trim (s : string) : string :=
  string_of_list_ascii (rev (trim_start (rev (trim_start (list_ascii_of_string s))))).

(** ** [stopAllAudio] *)

Definition stopAllAudio : M unit :=
  sources <- gets activeSourcesRef ;;
  forEach sources (fun source => try_catch (source_stop source) (fun _ => ret tt)) ;;
  modify (set_activeSourcesRef []) ;;
  modify (set_nextStartTimeRef 0%Q) ;;
  modify (set_isSpeaking false).

(** ** [handleSendText] *)

Definition status_eqb (a b : ConnectionStatus) : bool :=
  match a, b with
  | DISCONNECTED, DISCONNECTED | CONNECTING, CONNECTING
  | CONNECTED, CONNECTED | ERROR, ERROR => true
  | _, _ => false
  end.

Definition is_null {A : Type} (r : option A) : bool :=
  match r with
  | Some _ => false
  | None => true
  end.

(** A method call through a ref: a TypeError when the ref holds [null]. *)
Definition deref {A : Type} (r : option A) : M A :=
  match r with
  | Some a => ret a
  | None => throw TypeError
  end.

Definition handleSendText (env : Env) : M unit :=
  inputText_ <- gets inputText ;;
  session <- gets sessionRef ;;
  status_ <- gets status ;;
  if negb (truthy (trim inputText_)) || is_null session
     || negb (status_eqb status_ CONNECTED)
  then ret tt
  else
    let textToSend := trim inputText_ in
    try_catch
      (current <- deref session ;;
       sendRealtimeInput env current (TextInput textToSend) ;;
       modify (fun s => set_messages
                          (messages s ++ [mkMessage (random_id env) user
                                            textToSend (now env)]) s) ;;
       modify (set_inputText EmptyString))
      (fun _ => console_error "Failed to send text input:").

(** ** Transport callbacks *)

Definition onopen : M unit :=
  console_log "Lumi Session Socket Opened" ;;
  modify (set_status CONNECTED) ;;
  modify (set_isListening true).

Definition sc_field {A : Type} (f : ServerContent -> option A) (message : LiveServerMessage)
  : option A :=
  match serverContent message with
  | Some sc => f sc
  | None => None
  end.

Definition sc_flag (f : ServerContent -> bool) (message : LiveServerMessage) : bool :=
  match serverContent message with
  | Some sc => f sc
  | None => false
  end.

(** [message.serverContent?.modelTurn?.parts?.find(p => p.inlineData)
    ?.inlineData?.data]. *)
Definition base64Audio (message : LiveServerMessage) : option string :=
  match sc_field modelTurn message with
  | Some mt =>
      match parts mt with
      | Some ps =>
          match find (fun p => match inlineData p with Some _ => true | None => false end) ps with
          | Some p => match inlineData p with
                      | Some d => data d
                      | None => None
                      end
          | None => None
          end
      | None => None
      end
  | None => None
  end.

Definition accumulate_transcription (message : LiveServerMessage) : M unit :=
  match sc_field outputTranscription message with
  | Some t =>
      modify (fun s => set_currentOutputTranscriptionRef
                         (js_append (currentOutputTranscriptionRef s) (tr_text t)) s)
  | None =>
      match sc_field inputTranscription message with
      | Some t =>
          modify (fun s => set_currentInputTranscriptionRef
                             (js_append (currentInputTranscriptionRef s) (tr_text t)) s)
      | None => ret tt
      end
  end.

Definition flush_turn (env : Env) : M unit :=
  assistantText <- gets currentOutputTranscriptionRef ;;
  when (truthy assistantText)
       (modify (fun s => set_messages
                           (messages s ++ [mkMessage (random_id env) assistant
                                             assistantText (now env)]) s)) ;;
  modify (set_currentInputTranscriptionRef EmptyString) ;;
  modify (set_currentOutputTranscriptionRef EmptyString).

Definition schedule_audio (env : Env) (base64 : string) : M unit :=
  modify (set_isSpeaking true) ;;
  modify (fun s => set_nextStartTimeRef
                     (Math_max (nextStartTimeRef s) (currentTime env)) s) ;;
  try_catch
    (audioBuffer <- lift (let* bytes := decode base64 in
                          decodeAudioData bytes 24000 1) ;;
     source <- createBufferSource audioBuffer ;;
     modify (fun s => set_activeSourcesRef (set_add source (activeSourcesRef s)) s) ;;
     when_ <- gets nextStartTimeRef ;;
     source_start env source when_ ;;
     modify (fun s => set_nextStartTimeRef
                        (nextStartTimeRef s + duration audioBuffer)%Q s))
    (fun _ => console_error "Audio playback error:").

Definition play_audio (env : Env) (message : LiveServerMessage) : M unit :=
  ctx <- gets outputAudioContextRef ;;
  match base64Audio message, ctx with
  | Some base64, Some _ => when (truthy base64) (schedule_audio env base64)
  | _, _ => ret tt
  end.

Definition onmessage (env : Env) (message : LiveServerMessage) : M unit :=
  accumulate_transcription message ;;
  when (sc_flag turnComplete message) (flush_turn env) ;;
  play_audio env message ;;
  when (sc_flag interrupted message) stopAllAudio.

(** *** [onmessage], split at its suspension point

    A handler that plays a chunk suspends at [await decodeAudioData(...)],
    after the clamp of the watermark and before the source is created, added
    and started; [decode] and the body of [decodeAudioData] run before the
    suspension.  While it is suspended other handlers may run.  [onmessage]
    above is the handler when nothing runs in between; the two parts follow. *)

(** What a suspended handler holds: its message and the settled promise. *)
Record Suspended : Type := mkSuspended {
  susp_message : LiveServerMessage;
  susp_decoded : Exc AudioBuffer
}.

(** Up to the suspension; [None] when the handler does not suspend: no audio
    to play, or [decode] threw and the [catch] ran at once. *)
Definition play_audio_begin (env : Env) (message : LiveServerMessage)
  : M (option Suspended) :=
  ctx <- gets outputAudioContextRef ;;
  match base64Audio message, ctx with
  | Some base64, Some _ =>
      if truthy base64
      then
        modify (set_isSpeaking true) ;;
        modify (fun s => set_nextStartTimeRef
                           (Math_max (nextStartTimeRef s) (currentTime env)) s) ;;
        match decode base64 with
        | Throw _ => console_error "Audio playback error:" ;; ret None
        | Ok bytes => ret (Some (mkSuspended message (decodeAudioData bytes 24000 1)))
        end
      else ret None
  | _, _ => ret None
  end.

Definition onmessage_begin (env : Env) (message : LiveServerMessage)
  : M (option Suspended) :=
  accumulate_transcription message ;;
  when (sc_flag turnComplete message) (flush_turn env) ;;
  suspended <- play_audio_begin env message ;;
  match suspended with
  | Some _ => ret suspended
  | None => when (sc_flag interrupted message) stopAllAudio ;; ret None
  end.

(** From the suspension to the end of the handler. *)
Definition onmessage_resume (env : Env) (suspended : Suspended) : M unit :=
  try_catch
    (audioBuffer <- lift (susp_decoded suspended) ;;
     source <- createBufferSource audioBuffer ;;
     modify (fun s => set_activeSourcesRef (set_add source (activeSourcesRef s)) s) ;;
     when_ <- gets nextStartTimeRef ;;
     source_start env source when_ ;;
     modify (fun s => set_nextStartTimeRef
                        (nextStartTimeRef s + duration audioBuffer)%Q s))
    (fun _ => console_error "Audio playback error:") ;;
  when (sc_flag interrupted (susp_message suspended)) stopAllAudio.

Definition onerror : M unit :=
  console_error "Lumi Session Error Detail:" ;;
  modify (set_status ERROR) ;;
  modify (set_isListening false).

Definition onclose : M unit :=
  console_log "Lumi Session Closed" ;;
  modify (set_status DISCONNECTED) ;;
  modify (set_isListening false) ;;
  stopAllAudio.

(** [source.onended]. *)
Definition onended (source : nat) : M unit :=
  modify (fun s => set_activeSourcesRef (set_delete source (activeSourcesRef s)) s) ;;
  size <- gets (fun s => List.length (activeSourcesRef s)) ;;
  when (size =? 0)%nat (modify (set_isSpeaking false)).

(** ** [handleStartSession]

    The handler suspends while the audio contexts resume, the microphone is
    acquired and the transport connects.  [handleStartSession_begin] is the
    part before the first suspension; [handleStartSession_resume] is the rest,
    entered with what the awaited calls produced.  Both run inside the
    handler's one [try]/[catch]. *)

Inductive Awaited : Type :=
| Resolved (session : Session)
| Rejected (e : JsError).

Definition start_failed (_ : JsError) : M unit :=
  console_error "Failed to initialize Lumi:" ;;
  modify (set_status ERROR).

Definition handleStartSession_begin (env : Env) : M unit :=
  try_catch
    (session <- gets sessionRef ;;
     match session with
     | Some current => try_catch (session_close env current) (fun _ => ret tt)
     | None => ret tt
     end ;;
     processor <- gets scriptProcessorRef ;;
     match processor with
     | Some p => processor_disconnect p
     | None => ret tt
     end ;;
     stopAllAudio ;;
     modify (set_status CONNECTING) ;;
     input <- gets audioContextRef ;;
     when (is_null input) (modify (set_audioContextRef (Some (mkAudioContext 16000)))) ;;
     output <- gets outputAudioContextRef ;;
     when (is_null output)
          (modify (set_outputAudioContextRef (Some (mkAudioContext 24000)))))
    start_failed.

Definition greeting : string :=
  String.append
    "Lumi, introduce yourself to the user. Acknowledge that you were created by "
    "Pralay, and politely ask for their name to get things started.".

Definition handleStartSession_resume (env : Env) (awaited : Awaited) : M unit :=
  try_catch
    (match awaited with
     | Rejected e => throw e
     | Resolved session =>
         modify (set_sessionRef (Some session)) ;;
         input <- gets audioContextRef ;;
         _ <- deref input ;;
         n <- gets allocated ;;
         modify (set_allocated (S n)) ;;
         modify (set_scriptProcessorRef (Some (mkProcessor n session))) ;;
         sendRealtimeInput env session (TextInput greeting)
     end)
    start_failed.

(** ** [onaudioprocess]

    The callback of one capture node; the send goes to the session the
    callback closes over, through [sessionPromise.then(...).catch(() => {})]. *)

Definition onaudioprocess (env : Env) (p : ScriptProcessorNode) (inputData : Float32Array)
  : M unit :=
  let blob := pcmBlob inputData in
  try_catch (sendRealtimeInput env (sp_session p) (MediaInput blob))
            (fun _ => ret tt).

(** ** [handleStopSession] *)

Definition handleStopSession (env : Env) : M unit :=
  session <- gets sessionRef ;;
  match session with
  | Some current =>
      try_catch (session_close env current) (fun _ => ret tt) ;;
      modify (set_sessionRef None)
  | None => ret tt
  end ;;
  processor <- gets scriptProcessorRef ;;
  match processor with
  | Some p =>
      processor_disconnect p ;;
      modify (set_scriptProcessorRef None)
  | None => ret tt
  end ;;
  stopAllAudio ;;
  modify (set_isListening false) ;;
  modify (set_status DISCONNECTED).

(** ** The serialized event stream *)

Inductive Event : Type :=
| SendText
| TypeText (t : string)
| ClearMessages
| StartSession
| StartResumed (awaited : Awaited)
| StopSession
| Open
| ServerMessage (message : LiveServerMessage)
| TransportFailed
| Closed
| Ended (source : nat)
| AudioProcess (p : ScriptProcessorNode) (inputData : Float32Array).

Definition handle (env : Env) (ev : Event) : M unit :=
  match ev with
  | SendText => handleSendText env
  | TypeText t => modify (set_inputText t)
  | ClearMessages => modify (set_messages [])
  | StartSession => handleStartSession_begin env
  | StartResumed awaited => handleStartSession_resume env awaited
  | StopSession => handleStopSession env
  | Open => onopen
  | ServerMessage message => onmessage env message
  | TransportFailed => onerror
  | Closed => onclose
  | Ended source => onended source
  | AudioProcess p inputData => onaudioprocess env p inputData
  end.

Definition run (evs : list (Env * Event)) (s : App) : App :=
  fold_left (fun st ev => exec (handle (fst ev) (snd ev)) st) evs s.

(** *** Interleaved runs

    The steps of the component when handlers may suspend: an event handled as
    before, a message whose handler runs up to its suspension, and the oldest
    suspended handler running to its end. *)
Inductive Step : Type :=
| Handles (ev : Event)
| Arrives (message : LiveServerMessage)
| Resumes.

Definition step (env : Env) (st : Step) (rt : App * list Suspended)
  : App * list Suspended :=
  match st with
  | Handles ev => (exec (handle env ev) (fst rt), snd rt)
  | Arrives message =>
      match onmessage_begin env message (fst rt) with
      | (Ok (Some suspended), s') => (s', snd rt ++ [suspended])
      | (_, s') => (s', snd rt)
      end
  | Resumes =>
      match snd rt with
      | [] => rt
      | suspended :: waiting => (exec (onmessage_resume env suspended) (fst rt), waiting)
      end
  end.

Definition interleave (steps : list (Env * Step)) (rt : App * list Suspended)
  : App * list Suspended :=
  fold_left (fun r es => step (fst es) (snd es) r) steps rt.

(** The inbound messages of a session, handled in arrival order. *)
Definition run_messages (ms : list (Env * LiveServerMessage)) (s : App) : App :=
  fold_left (fun st em => exec (onmessage (fst em) (snd em)) st) ms s.

(** The capture loop: the frames of one capture node, in capture order. *)
Definition capture (p : ScriptProcessorNode) (frames : list (Env * Float32Array))
  : M unit :=
  forEach frames (fun ef => onaudioprocess (fst ef) p (snd ef)).

(** ** Notions used to state the properties *)

Definition is_byte (z : Z) : Prop := 0 <= z < 256.
Definition is_sextet (z : Z) : Prop := 0 <= z < 64.
Definition is_int16 (v : Z) : Prop := -32768 <= v <= 32767.

(** Specification: a sample scaled by 32768 and saturated at the int16
    bounds, to be compared with the store of [onaudioprocess]. *)
Definition pcm_saturating (x : Q) : Z :=
  Z.max (-32768) (Z.min 32767 (trunc (x * 32768))).

(** A captured frame sent as a chunk and decoded the way inbound chunks are. *)
Definition round_trip (inputData : Float32Array) : Exc (list Float32Array) :=
  let* bytes := decode (blob_data (pcmBlob inputData)) in
  let* buffer := decodeAudioData bytes 24000 1 in
  Ok (channels buffer).

(** Two samples closer than one step of the 16-bit scale. *)
Definition within_quantization (x y : Q) : Prop := (Qabs (x - y) < 1 # 32768)%Q.

Definition in_range (x : Q) : Prop := (-1 <= x)%Q /\ (x < 1)%Q.

(** The part of a playback unit's schedule that the scheduler promises. *)
Definition unit_end (c : StartCall) : Q := (sc_when c + sc_duration c)%Q.

Definition not_in_past (c : StartCall) : Prop := (sc_clock c <= sc_when c)%Q.



Definition no_interruption (ms : list (Env * LiveServerMessage)) : Prop :=
  Forall (fun em => sc_flag interrupted (snd em) = false) ms.

(** The text a message adds to the outbound and to the inbound accumulator. *)
Definition fragment_text (t : Transcription) : string :=
  match tr_text t with
  | Some x => x
  | None => "undefined"
  end.

Definition out_fragment (message : LiveServerMessage) : string :=
  match sc_field outputTranscription message with
  | Some t => fragment_text t
  | None => EmptyString
  end.

Definition in_fragment (message : LiveServerMessage) : string :=
  match sc_field outputTranscription message, sc_field inputTranscription message with
  | None, Some t => fragment_text t
  | _, _ => EmptyString
  end.

Definition is_user (m : Message) : bool :=
  match role m with
  | user => true
  | assistant => false
  end.

(** The fields the playback scheduler works on. *)
Definition audio_view (s : App)
  : Q * list AudioBufferSourceNode * list StartCall * option AudioContext :=
  (nextStartTimeRef s, activeSourcesRef s, audioOut s, outputAudioContextRef s).

(** The fields the transcript aggregation works on. *)
Definition chat_view (s : App) : list Message * string * string :=
  (messages s, currentInputTranscriptionRef s, currentOutputTranscriptionRef s).

(** Fragments joined in arrival order. *)
Definition join (fragments : list string) : string :=
  fold_right String.append EmptyString fragments.

Definition no_turn_complete (ms : list (Env * LiveServerMessage)) : Prop :=
  Forall (fun em => sc_flag turnComplete (snd em) = false) ms.

(** The chunks of a capture run that reach the transport: those whose send
    does not throw, in capture order. *)
Definition delivered (p : ScriptProcessorNode) (frames : list (Env * Float32Array))
  : list (Session * RealtimeInput) :=
  map (fun ef => (sp_session p, MediaInput (pcmBlob (snd ef))))
      (filter (fun ef => negb (send_throws (fst ef))) frames).

(** ** Sample inputs *)

Definition sample_env (clock : Q) : Env :=
  mkEnv clock "k3x9q0a7b" 1700000000 false false.

(** The same with every transport call throwing. *)
Definition failing_env (clock : Q) : Env :=
  mkEnv clock "k3x9q0a7b" 1700000000 true true.

Definition audio_message (base64 : string) : LiveServerMessage :=
  mkLiveServerMessage
    (Some (mkServerContent None None false false
             (Some (mkContent (Some [mkPart (Some (mkInlineData (Some base64)))]))))).

Definition interrupt_message : LiveServerMessage :=
  mkLiveServerMessage (Some (mkServerContent None None false true None)).

Definition output_message (fragment : string) : LiveServerMessage :=
  mkLiveServerMessage
    (Some (mkServerContent (Some (mkTranscription (Some fragment))) None false false None)).

Definition turn_complete_message : LiveServerMessage :=
  mkLiveServerMessage (Some (mkServerContent None None true false None)).

(** A session being started: the contexts exist, the transport is open, the
    connect promise has not resolved yet. *)
Definition opening : App :=
  exec onopen (exec (handleStartSession_begin (sample_env 0)) initialApp).

(** A running session. *)
Definition connected : App :=
  exec (handleStartSession_resume (sample_env 0) (Resolved (mkSession 1))) opening.

(** A second session being started after text was typed into the first: the
    transport is open, the connect promise has not resolved yet. *)
Definition reopened : App :=
  run [(sample_env 0, StartSession);
       (sample_env 0, Open);
       (sample_env 0, StartResumed (Resolved (mkSession 1)));
       (sample_env 1, TypeText "hello");
       (sample_env 2, StopSession);
       (sample_env 3, StartSession);
       (sample_env 3, Open)]
      initialApp.

(** A running session with one unit playing, scheduled at clock 5. *)
Definition playing : App :=
  exec (onmessage (sample_env 5) (audio_message "AIAAgABAVtU=")) connected.

(** ** Notions used to state further properties of the code *)

(** A character of the text-safe alphabet of a wire chunk. *)
Definition is_wire_char (c : ascii) : Prop := In c b64_alphabet \/ c = "="%char.

(** Units that follow one another without a gap, the first starting at [w]. *)
Fixpoint abutting (w : Q) (l : list StartCall) : Prop :=
  match l with
  | [] => True
  | c :: r => sc_when c = w /\ (0 <= sc_duration c)%Q /\ abutting (unit_end c) r
  end.

(** The end of the last of the units, or [w] when there is none. *)
Fixpoint chain_end (w : Q) (l : list StartCall) : Q :=
  match l with
  | [] => w
  | c :: r => chain_end (unit_end c) r
  end.

(** All fields but the conversation log and the two accumulators. *)
Definition rest_view (s : App) :=
  (status s, isSpeaking s, isListening s, inputText s, audioContextRef s,
   outputAudioContextRef s, nextStartTimeRef s, activeSourcesRef s, sessionRef s,
   scriptProcessorRef s, console s, transport s, closed s, disconnected s,
   audioOut s, audioStops s, allocated s).

Definition is_empty {A : Type} (l : list A) : bool :=
  match l with
  | [] => true
  | _ :: _ => false
  end.

(** The playback state. *)
Definition playback_view (s : App) :=
  (nextStartTimeRef s, activeSourcesRef s, audioOut s, isSpeaking s).

(** What the playback state of the component looks like in every state it can
    reach: the watermark is not negative; the units of the active set have
    started, are distinct and were created by the component; [isSpeaking] is on
    while the set is not empty; no unit was ever started at a negative time. *)
Definition well_formed (s : App) : Prop :=
  (0 <= nextStartTimeRef s)%Q
  /\ Forall (fun n => node_started n = true /\ (node_id n < allocated s)%nat)
            (activeSourcesRef s)
  /\ NoDup (map node_id (activeSourcesRef s))
  /\ (activeSourcesRef s <> [] -> isSpeaking s = true)
  /\ Forall (fun c => (0 <= sc_when c)%Q) (audioOut s).

(** The events after which the session is no longer connected. *)
Definition ends_connection (ev : Event) : Prop :=
  ev = StartSession \/ ev = StopSession \/ ev = TransportFailed \/ ev = Closed
  \/ exists e, ev = StartResumed (Rejected e).

(** What holds of the playback state in every run, interleaved or not: the
    watermark is not negative; the units of the active set have started, are
    distinct and were created by the component; no unit was ever started at a
    negative time. *)
Definition sound (s : App) : Prop :=
  (0 <= nextStartTimeRef s)%Q
  /\ Forall (fun n => node_started n = true /\ (node_id n < allocated s)%nat)
            (activeSourcesRef s)
  /\ NoDup (map node_id (activeSourcesRef s))
  /\ Forall (fun c => (0 <= sc_when c)%Q) (audioOut s).

(** A chunk arrives at clock 5; while its handler is suspended at the decoding
    an interruption is handled; then the handler resumes. *)
Definition interrupted_while_decoding : App * list Suspended :=
  interleave [(sample_env 5, Arrives (audio_message "AIA"));
              (sample_env 5, Arrives interrupt_message);
              (sample_env 5, Resumes)]
             (connected, []).

(** * Properties *)

(** ** Base64: decoding inverts encoding *)

Lemma all_sextets (P : Z -> bool) :
  forallb P (map Z.of_nat (seq 0 64)) = true ->
  forall n, 0 <= n < 64 -> P n = true.
Proof.
  intros H n Hn.
  rewrite forallb_forall in H. apply H.
  apply in_map_iff. exists (Z.to_nat n). split; [lia|].
  apply in_seq. lia.
Qed.

Lemma b64_index_char (n : Z) : 0 <= n < 64 -> b64_index (b64_char n) = Some n.
Proof.
  intros Hn.
  pose proof (all_sextets
                (fun n => match b64_index (b64_char n) with
                          | Some m => m =? n
                          | None => false
                          end) eq_refl n Hn) as H.
  cbv beta in H. destruct (b64_index (b64_char n)); [|discriminate].
  apply Z.eqb_eq in H. now subst.
Qed.

Lemma b64_char_plain (n : Z) :
  0 <= n < 64 ->
  is_ascii_whitespace (b64_char n) = false /\ is_pad (b64_char n) = false.
Proof.
  intros Hn.
  pose proof (all_sextets
                (fun n => negb (is_ascii_whitespace (b64_char n))
                          && negb (is_pad (b64_char n))) eq_refl n Hn) as H.
  cbv beta in H. apply andb_true_iff in H. destruct H as [H1 H2].
  split; now apply negb_true_iff.
Qed.

Lemma list_ind3 {A : Type} (P : list A -> Prop) :
  P [] -> (forall a, P [a]) -> (forall a b, P [a; b]) ->
  (forall a b c r, P r -> P (a :: b :: c :: r)) ->
  forall l, P l.
Proof.
  intros H0 H1 H2 H3. fix IH 1.
  intros [|a [|b [|c r]]];
    [apply H0 | apply H1 | apply H2 | apply H3; apply IH].
Qed.

Lemma to_sextets_range (bs : list Z) :
  Forall is_byte bs -> Forall is_sextet (to_sextets bs).
Proof.
  induction bs as [| a | a b | a b c r IH] using list_ind3; intros H; simpl.
  - constructor.
  - inversion_clear H. unfold is_byte, is_sextet in *.
    repeat constructor; Z.to_euclidean_division_equations; lia.
  - inversion_clear H as [|? ? Ha H']. inversion_clear H' as [|? ? Hb _].
    unfold is_byte, is_sextet in *.
    repeat constructor; Z.to_euclidean_division_equations; lia.
  - inversion_clear H as [|? ? Ha H']. inversion_clear H' as [|? ? Hb H''].
    inversion_clear H'' as [|? ? Hc Hr].
    unfold is_byte, is_sextet in *.
    repeat (constructor; [Z.to_euclidean_division_equations; lia|]).
    now apply IH.
Qed.

Lemma from_to_sextets (bs : list Z) :
  Forall is_byte bs -> from_sextets (to_sextets bs) = bs.
Proof.
  induction bs as [| a | a b | a b c r IH] using list_ind3; intros H; simpl.
  - reflexivity.
  - inversion_clear H. unfold is_byte in *.
    f_equal. Z.to_euclidean_division_equations; lia.
  - inversion_clear H as [|? ? Ha H']. inversion_clear H' as [|? ? Hb _].
    unfold is_byte in *.
    repeat f_equal; Z.to_euclidean_division_equations; lia.
  - inversion_clear H as [|? ? Ha H']. inversion_clear H' as [|? ? Hb H''].
    inversion_clear H'' as [|? ? Hc Hr].
    unfold is_byte in *. rewrite (IH Hr).
    repeat f_equal; Z.to_euclidean_division_equations; lia.
Qed.

Lemma b64_padding_step (n : nat) : b64_padding (S (S (S n))) = b64_padding n.
Proof.
  unfold b64_padding.
  replace (S (S (S n))) with (n + 1 * 3)%nat by lia.
  now rewrite Nat.Div0.mod_add.
Qed.

(** The shape of an encoded string: whole groups of four characters. *)
Lemma encoded_length (bs : list Z) :
  (List.length (to_sextets bs ++ map code (b64_padding (List.length bs))) mod 4 = 0)%nat
  /\ (List.length (to_sextets bs) mod 4 <> 1)%nat.
Proof.
  induction bs as [| a | a b | a b c r IH] using list_ind3.
  - split; [reflexivity | discriminate].
  - split; [reflexivity | discriminate].
  - split; [reflexivity | discriminate].
  - cbn [List.length]. rewrite b64_padding_step.
    cbn [to_sextets app List.length].
    destruct IH as [IH1 IH2].
    set (n := List.length (to_sextets r ++ map code (b64_padding (List.length r)))) in *.
    set (m := List.length (to_sextets r)) in *.
    replace (S (S (S (S n)))) with (n + 1 * 4)%nat by lia.
    replace (S (S (S (S m)))) with (m + 1 * 4)%nat by lia.
    now rewrite !Nat.Div0.mod_add.
Qed.

Lemma b64_padding_cases (n : nat) :
  b64_padding n = [] \/ b64_padding n = ["="%char] \/ b64_padding n = ["="%char; "="%char].
Proof.
  unfold b64_padding. destruct (n mod 3)%nat as [|[|[|k]]]; auto.
Qed.

Lemma strip_padding_app (body pad : list ascii) :
  Forall (fun c => is_pad c = false) body ->
  pad = [] \/ pad = ["="%char] \/ pad = ["="%char; "="%char] ->
  strip_padding (body ++ pad) = body.
Proof.
  intros Hbody Hpad.
  assert (Hrev : Forall (fun c => is_pad c = false) (rev body)).
  { apply Forall_forall. intros c Hc. rewrite Forall_forall in Hbody.
    apply Hbody. now apply in_rev. }
  unfold strip_padding. rewrite rev_app_distr.
  destruct Hpad as [-> | [-> | ->]]; simpl.
  - rewrite app_nil_r.
    destruct (rev body) as [|c1 [|c2 r]] eqn:E; try reflexivity;
      inversion_clear Hrev as [|? ? H1 _]; now rewrite H1.
  - destruct (rev body) as [|c2 r] eqn:E.
    + apply (f_equal (@rev ascii)) in E. rewrite rev_involutive in E. now subst.
    + inversion_clear Hrev as [|? ? H2 _]. rewrite H2.
      change (rev (c2 :: r) = body).
      rewrite <- E. apply rev_involutive.
  - apply rev_involutive.
Qed.

Lemma indices_chars (sx : list Z) :
  Forall is_sextet sx -> indices (map b64_char sx) = Some sx.
Proof.
  induction 1 as [|n r Hn _ IH]; simpl.
  - reflexivity.
  - now rewrite (b64_index_char n Hn), IH.
Qed.

Lemma chars_plain (sx : list Z) :
  Forall is_sextet sx ->
  Forall (fun c => is_ascii_whitespace c = false) (map b64_char sx)
  /\ Forall (fun c => is_pad c = false) (map b64_char sx).
Proof.
  induction 1 as [|n r Hn _ [IH1 IH2]]; simpl.
  - split; constructor.
  - destruct (b64_char_plain n Hn). split; now constructor.
Qed.

Lemma filter_all {A : Type} (f : A -> bool) (l : list A) :
  Forall (fun x => f x = true) l -> filter f l = l.
Proof.
  induction 1 as [|x r Hx _ IH]; simpl.
  - reflexivity.
  - now rewrite Hx, IH.
Qed.

Lemma code_is_byte (c : ascii) : is_byte (code c).
Proof.
  unfold is_byte, code. pose proof (N_ascii_bounded c). lia.
Qed.

Lemma chr_code (c : ascii) : chr (code c) = c.
Proof.
  unfold chr, code. rewrite N2Z.id. apply ascii_N_embedding.
Qed.

Lemma map_chr_code (l : list ascii) : map chr (map code l) = l.
Proof.
  rewrite map_map. rewrite <- (map_id l) at 2.
  apply map_ext. intros c. apply chr_code.
Qed.

Lemma atob_btoa (binary : string) : atob (btoa binary) = Some binary.
Proof.
  unfold atob, btoa.
  set (bs := map code (list_ascii_of_string binary)).
  assert (Hbs : Forall is_byte bs).
  { apply Forall_forall. intros z Hz. apply in_map_iff in Hz.
    destruct Hz as [c [<- _]]. apply code_is_byte. }
  pose proof (to_sextets_range bs Hbs) as Hsx.
  destruct (chars_plain _ Hsx) as [Hws Hpad].
  pose proof (encoded_length bs) as [Hlen Hbody].
  rewrite list_ascii_of_string_of_list_ascii.
  rewrite filter_all.
  2:{ apply Forall_app. split.
      - eapply Forall_impl; [|exact Hws]. intros c Hc. cbv beta. now rewrite Hc.
      - destruct (b64_padding_cases (List.length bs)) as [-> | [-> | ->]];
          repeat constructor. }
  assert (Hl : List.length (map b64_char (to_sextets bs) ++ b64_padding (List.length bs))
               = List.length (to_sextets bs ++ map code (b64_padding (List.length bs)))).
  { now rewrite !length_app, !length_map. }
  rewrite Hl, Hlen. cbn [Nat.eqb].
  rewrite strip_padding_app by (auto using b64_padding_cases).
  rewrite length_map.
  destruct (Nat.eqb_spec (List.length (to_sextets bs) mod 4) 1) as [E|_]; [contradiction|].
  rewrite (indices_chars _ Hsx), (from_to_sextets _ Hbs).
  unfold bs. now rewrite map_chr_code, string_of_list_ascii_of_string.
Qed.

(** ** The wire codec: [decode] inverts [encode] *)

Lemma binary_string (bytes : Uint8Array) (acc : string) :
  fold_left (fun binary b => (binary ++ String (ascii_of_byte b) EmptyString)%string)
            bytes acc
  = (acc ++ string_of_list_ascii (map ascii_of_byte bytes))%string.
Proof.
  revert acc. induction bytes as [|b r IH]; intros acc; simpl.
  - clear. induction acc as [|c acc IH]; simpl; [reflexivity | now f_equal].
  - rewrite IH. clear.
    induction acc as [|c acc IH]; simpl; [reflexivity | now f_equal].
Qed.

Lemma decode_encode (bytes : Uint8Array) : decode (encode bytes) = Ok bytes.
Proof.
  unfold decode, encode. rewrite atob_btoa, binary_string. simpl.
  rewrite list_ascii_of_string_of_list_ascii, map_map.
  f_equal. rewrite <- (map_id bytes) at 2.
  apply map_ext. intros b. apply byte_of_ascii_of_byte.
Qed.

(** ** Sixteen-bit samples and their bytes *)

Lemma byte_val_of_val (z : Z) : byte_val (byte_of_val z) = z mod 256.
Proof.
  unfold byte_val, byte_of_val, chr.
  pose proof (byte_of_ascii_via_N (ascii_of_N (Z.to_N (z mod 256)))) as H.
  symmetry in H. apply Byte.to_of_N in H. rewrite H.
  assert (Hm : 0 <= z mod 256 < 256) by (apply Z.mod_pos_bound; lia).
  rewrite N_ascii_embedding; lia.
Qed.

Lemma ToInt16_range (q : Q) : is_int16 (ToInt16 q).
Proof.
  unfold is_int16, ToInt16.
  destruct (Z.leb_spec 32768 (trunc q mod 65536));
    Z.to_euclidean_division_equations; lia.
Qed.

Lemma int16_word (v : Z) :
  is_int16 v ->
  let u := v mod 65536 in
  let w := (u mod 256) mod 256 + 256 * ((u / 256) mod 256) in
  (if 32768 <=? w then w - 65536 else w) = v.
Proof.
  intros Hv u w. unfold is_int16 in Hv.
  assert (Hu : 0 <= u < 65536) by (apply Z.mod_pos_bound; lia).
  assert (Hw : w = u) by (unfold w; Z.to_euclidean_division_equations; lia).
  rewrite Hw. unfold u in *.
  destruct (Z.leb_spec 32768 (v mod 65536));
    Z.to_euclidean_division_equations; lia.
Qed.

Lemma int16_bytes (a : Int16Array) :
  Forall is_int16 a -> int16_of_bytes (bytes_of_int16 a) = Ok a.
Proof.
  induction 1 as [|v r Hv _ IH]; simpl.
  - reflexivity.
  - rewrite IH. cbn [bind]. rewrite !byte_val_of_val.
    do 2 f_equal. exact (int16_word v Hv).
Qed.

Lemma pcm16_range (inputData : Float32Array) : Forall is_int16 (pcm16 inputData).
Proof.
  unfold pcm16. apply Forall_forall. intros v Hv.
  apply in_map_iff in Hv. destruct Hv as [x [<- _]]. apply ToInt16_range.
Qed.

Lemma map_nth_seq {A B : Type} (g : A -> B) (d : A) (pre l : list A) :
  map (fun i => g (nth (i * 1 + 0) (pre ++ l) d)) (seq (List.length pre) (List.length l))
  = map g l.
Proof.
  revert pre. induction l as [|x r IH]; intros pre; simpl.
  - reflexivity.
  - f_equal.
    + f_equal. replace (List.length pre * 1 + 0)%nat with (List.length pre) by lia.
      apply nth_middle.
    + specialize (IH (pre ++ [x])).
      rewrite <- app_assoc, length_app in IH. simpl in IH.
      replace (List.length pre + 1)%nat with (S (List.length pre)) in IH by lia.
      exact IH.
Qed.

(** Decoding the chunk of a frame: one channel, the samples divided by 32768. *)
Lemma decodeAudioData_int16 (a : Int16Array) (rate : Z) :
  Forall is_int16 a -> a <> [] -> supported_rate rate = true ->
  decodeAudioData (bytes_of_int16 a) rate 1
  = Ok (mkAudioBuffer 1 (List.length a) rate [map (fun v => v # 32768) a]).
Proof.
  intros Ha Hne Hrate. unfold decodeAudioData.
  rewrite (int16_bytes a Ha). cbn [bind].
  rewrite Nat.div_1_r.
  unfold createBuffer. rewrite Hrate.
  destruct a as [|v r]; [contradiction|].
  cbn [List.length Nat.eqb orb negb bind seq map supported_channels Nat.leb andb].
  do 3 f_equal.
  exact (map_nth_seq (fun v => v # 32768) 0 [] (v :: r)).
Qed.

(** ** Scaling and truncating a sample *)

Lemma quot_error (N D : Z) :
  0 < D ->
  - D < N - (N ÷ D) * D < D
  /\ (0 <= N -> 0 <= N - (N ÷ D) * D)
  /\ (N <= 0 -> N - (N ÷ D) * D <= 0).
Proof.
  intros HD. Z.to_euclidean_division_equations. nia.
Qed.

Lemma trunc_scaled (x : Q) :
  (-1 <= x)%Q -> (x < 1)%Q -> -32768 <= trunc (x * 32768) <= 32767.
Proof.
  destruct x as [n d]. unfold Qle, Qlt, trunc. cbn.
  intros Hlo Hhi. rewrite Pos.mul_1_r.
  pose proof (quot_error (n * 32768) (Z.pos d) eq_refl) as [H [Hpos Hneg]].
  set (t := (n * 32768) ÷ Z.pos d) in *.
  assert (Hd : 0 < Z.pos d) by lia.
  destruct (Z.le_gt_cases 0 n) as [Hn | Hn].
  - specialize (Hpos ltac:(lia)). nia.
  - specialize (Hneg ltac:(lia)). nia.
Qed.

Lemma ToInt16_exact (q : Q) : is_int16 (trunc q) -> ToInt16 q = trunc q.
Proof.
  unfold is_int16, ToInt16. generalize (trunc q). intros t H.
  destruct (Z.leb_spec 32768 (t mod 65536));
    Z.to_euclidean_division_equations; lia.
Qed.

(** The value read back differs from the sample by less than one step. *)
Lemma quantization_error (x : Q) :
  (Qabs (x - (trunc (x * 32768) # 32768)) < 1 # 32768)%Q.
Proof.
  apply Qabs_diff_Qlt_condition.
  destruct x as [n d]. unfold Qlt, Qminus, Qplus, Qopp, trunc. cbn.
  rewrite Pos.mul_1_r.
  pose proof (quot_error (n * 32768) (Z.pos d) eq_refl) as [H _].
  set (t := (n * 32768) ÷ Z.pos d) in *.
  rewrite !Pos2Z.inj_mul. nia.
Qed.

(** ** Capture encoding (claims C2 and C3) *)

Lemma pcm16_in_range (inputData : Float32Array) :
  Forall in_range inputData ->
  pcm16 inputData = map (fun x => trunc (x * 32768)) inputData.
Proof.
  intros H. unfold pcm16. apply map_ext_in. intros x Hx.
  rewrite Forall_forall in H. destruct (H x Hx) as [Hlo Hhi].
  apply ToInt16_exact. exact (trunc_scaled x Hlo Hhi).
Qed.

(** Away from full scale the store does what C3 asks: on samples in [-1, 1)
    the PCM value is the sample scaled by 32768 and truncated toward zero; it
    lies within the int16 bounds, so it coincides with the saturating
    conversion and nothing wraps. *)
Theorem pcm16_scales_without_wrapping (inputData : Float32Array) :
  Forall in_range inputData ->
  pcm16 inputData = map pcm_saturating inputData
  /\ pcm16 inputData = map (fun x => trunc (x * 32768)) inputData
  /\ Forall is_int16 (pcm16 inputData).
Proof.
  intros H. split; [|split].
  - rewrite (pcm16_in_range _ H). apply map_ext_in. intros x Hx.
    rewrite Forall_forall in H. destruct (H x Hx) as [Hlo Hhi].
    pose proof (trunc_scaled x Hlo Hhi). unfold pcm_saturating. lia.
  - exact (pcm16_in_range _ H).
  - apply pcm16_range.
Qed.

Lemma pcm16_scales_without_wrapping_witness :
  Forall in_range [1 # 2; - (1 # 3)]%Q
  /\ pcm16 [1 # 2; - (1 # 3)]%Q = [16384; -10922].
Proof.
  assert (H : Forall in_range [1 # 2; - (1 # 3)]%Q).
  { repeat constructor; unfold Qle, Qlt; simpl; lia. }
  split; [exact H|].
  destruct (pcm16_scales_without_wrapping _ H) as [_ [E _]].
  rewrite E. reflexivity.
Defined.

(** C3 at full scale: the sample +1.0 is stored as -32768, the wrapped value,
    where the saturating conversion gives 32767. *)
Lemma pcm16_wraps_at_full_scale :
  pcm16 [1%Q] = [-32768] /\ map pcm_saturating [1%Q] = [32767]
  /\ pcm16 [1%Q] <> map pcm_saturating [1%Q].
Proof.
  split; [reflexivity | split; [reflexivity | discriminate]].
Qed.

Lemma Forall2_quantized (inputData : Float32Array) :
  Forall2 within_quantization inputData
          (map (fun v => v # 32768) (map (fun x => trunc (x * 32768)) inputData)).
Proof.
  induction inputData as [|x r IH]; simpl; constructor.
  - apply quantization_error.
  - exact IH.
Qed.

(** Away from full scale the round trip of C2 holds: a non-empty frame of
    samples in [-1, 1) comes back as one channel of as many samples, each
    within one 16-bit step of the original. *)
Theorem round_trip_quantization (inputData : Float32Array) :
  inputData <> [] ->
  Forall in_range inputData ->
  exists samples,
    round_trip inputData = Ok [samples]
    /\ List.length samples = List.length inputData
    /\ Forall2 within_quantization inputData samples.
Proof.
  intros Hne H.
  exists (map (fun v => v # 32768) (map (fun x => trunc (x * 32768)) inputData)).
  split; [|split].
  - unfold round_trip, pcmBlob. cbn [blob_data].
    rewrite decode_encode. cbn [bind].
    rewrite decodeAudioData_int16.
    + cbn [bind channels]. now rewrite (pcm16_in_range _ H).
    + apply pcm16_range.
    + destruct inputData; [contradiction | discriminate].
    + reflexivity.
  - now rewrite !length_map.
  - apply Forall2_quantized.
Qed.

Lemma round_trip_quantization_witness :
  exists samples,
    round_trip [1 # 2; - (1 # 3)]%Q = Ok [samples]
    /\ List.length samples = 2%nat
    /\ Forall2 within_quantization [1 # 2; - (1 # 3)]%Q samples.
Proof.
  apply (round_trip_quantization [1 # 2; - (1 # 3)]%Q).
  - discriminate.
  - repeat constructor; unfold Qle, Qlt; simpl; lia.
Defined.

(** C2 on a frame that holds +1.0: the sample comes back as -1.0, two full
    units away from the original. *)
Lemma round_trip_full_scale :
  round_trip [1%Q] = Ok [[-32768 # 32768]]
  /\ ~ within_quantization 1 (-32768 # 32768).
Proof.
  split.
  - vm_compute. reflexivity.
  - unfold within_quantization. intros H.
    apply Qabs_diff_Qlt_condition in H. destruct H as [H _].
    revert H. unfold Qlt. simpl. lia.
Qed.

(** ** Running handlers *)

Lemma exec_bind {A B : Type} (m : M A) (k : A -> M B) (s : App) (a : A) :
  result m s = Ok a -> exec (mbind m k) s = exec (k a) (exec m s).
Proof.
  unfold result, exec, mbind. destruct (m s) as [[x|e] s']; simpl; intros H.
  - now inversion H.
  - discriminate.
Qed.

Lemma result_bind {A B : Type} (m : M A) (k : A -> M B) (s : App) (a : A) :
  result m s = Ok a -> result (mbind m k) s = result (k a) (exec m s).
Proof.
  unfold result, exec, mbind. destruct (m s) as [[x|e] s']; simpl; intros H.
  - now inversion H.
  - discriminate.
Qed.

Lemma run_eq {A : Type} (m : M A) (s : App) : m s = (result m s, exec m s).
Proof.
  unfold result, exec. now destruct (m s).
Qed.

Ltac unfold_monad :=
  unfold mbind, modify, gets, ret, throw, lift, when, try_catch, deref in *.

(** ** [stopAllAudio] *)

Lemma stop_each (l : list AudioBufferSourceNode) (s : App) :
  forEach l (fun source => try_catch (source_stop source) (fun _ => ret tt)) s
  = (Ok tt,
     set_audioStops (audioStops s ++ map node_id (filter node_started l)) s).
Proof.
  revert s. induction l as [|x r IH]; intros s.
  - simpl. rewrite app_nil_r. now destruct s.
  - cbn [forEach filter]. unfold mbind at 1, try_catch at 1, source_stop at 1.
    destruct (node_started x); unfold_monad; cbn.
    + rewrite IH. destruct s; cbn. now rewrite <- app_assoc.
    + now rewrite IH.
Qed.

Lemma stopAllAudio_eq (s : App) :
  stopAllAudio s
  = (Ok tt,
     set_isSpeaking false
       (set_nextStartTimeRef 0%Q
          (set_activeSourcesRef []
             (set_audioStops
                (audioStops s ++ map node_id (filter node_started (activeSourcesRef s)))
                s)))).
Proof.
  unfold stopAllAudio. unfold mbind at 1, gets at 1.
  unfold mbind at 1. rewrite stop_each. reflexivity.
Qed.

(** ** The parts of [onmessage] *)

Lemma append_empty (s : string) : (s ++ "")%string = s.
Proof.
  induction s as [|c s IH]; simpl; [reflexivity | now f_equal].
Qed.

Lemma accumulate_fields (message : LiveServerMessage) (s : App) :
  let s' := exec (accumulate_transcription message) s in
  result (accumulate_transcription message) s = Ok tt
  /\ currentOutputTranscriptionRef s'
     = (currentOutputTranscriptionRef s ++ out_fragment message)%string
  /\ currentInputTranscriptionRef s'
     = (currentInputTranscriptionRef s ++ in_fragment message)%string
  /\ messages s' = messages s
  /\ audio_view s' = audio_view s.
Proof.
  unfold accumulate_transcription, out_fragment, in_fragment, js_append, fragment_text.
  destruct (sc_field outputTranscription message) as [[[x|]]|];
    [| | destruct (sc_field inputTranscription message) as [[[x|]]|]];
    cbn; rewrite ?append_empty; repeat split; reflexivity.
Qed.

Lemma flush_fields (env : Env) (s : App) :
  let s' := exec (flush_turn env) s in
  let assistantText := currentOutputTranscriptionRef s in
  result (flush_turn env) s = Ok tt
  /\ messages s'
     = messages s
       ++ (if truthy assistantText
           then [mkMessage (random_id env) assistant assistantText (now env)]
           else [])
  /\ currentOutputTranscriptionRef s' = EmptyString
  /\ currentInputTranscriptionRef s' = EmptyString
  /\ audio_view s' = audio_view s.
Proof.
  unfold flush_turn. unfold_monad. unfold exec, result. cbn.
  destruct (truthy (currentOutputTranscriptionRef s)); cbn;
    rewrite ?app_nil_r; repeat split; reflexivity.
Qed.

Lemma stopAllAudio_fields (s : App) :
  let s' := exec stopAllAudio s in
  result stopAllAudio s = Ok tt
  /\ nextStartTimeRef s' = 0%Q
  /\ activeSourcesRef s' = []
  /\ audioOut s' = audioOut s
  /\ outputAudioContextRef s' = outputAudioContextRef s
  /\ chat_view s' = chat_view s.
Proof.
  unfold exec, result. rewrite stopAllAudio_eq. cbn. repeat split; reflexivity.
Qed.

(** One inbound chunk: the watermark is clamped; when the chunk decodes, one
    unit starts at the clamped watermark and the watermark moves to its end. *)
Lemma schedule_audio_fields (env : Env) (base64 : string) (s : App) :
  let s' := exec (schedule_audio env base64) s in
  let clamped := Math_max (nextStartTimeRef s) (currentTime env) in
  result (schedule_audio env base64) s = Ok tt
  /\ chat_view s' = chat_view s
  /\ outputAudioContextRef s' = outputAudioContextRef s
  /\ ((audioOut s' = audioOut s /\ nextStartTimeRef s' = clamped)
      \/ exists c,
           audioOut s' = audioOut s ++ [c]
           /\ sc_when c = clamped
           /\ sc_clock c = currentTime env
           /\ (0 <= sc_duration c)%Q
           /\ nextStartTimeRef s' = unit_end c).
Proof.
  unfold schedule_audio, createBufferSource, source_start, console_error.
  unfold_monad. unfold exec, result. cbn.
  destruct (let* bytes := decode base64 in decodeAudioData bytes 24000 1)
    as [audioBuffer|e]; cbn.
  - repeat split. right. eexists. repeat split.
    unfold duration, Qle. cbn. lia.
  - repeat split. left. split; reflexivity.
Qed.

Lemma play_audio_eq (env : Env) (message : LiveServerMessage) (s : App) :
  play_audio env message s
  = match base64Audio message, outputAudioContextRef s with
    | Some base64, Some _ =>
        if truthy base64 then schedule_audio env base64 s else (Ok tt, s)
    | _, _ => (Ok tt, s)
    end.
Proof.
  unfold play_audio. unfold mbind at 1, gets at 1.
  destruct (base64Audio message) as [base64|];
    [destruct (outputAudioContextRef s) as [ctx|];
     [destruct (truthy base64)|]|]; reflexivity.
Qed.

Lemma play_audio_fields (env : Env) (message : LiveServerMessage) (s : App) :
  let s' := exec (play_audio env message) s in
  let clamped := Math_max (nextStartTimeRef s) (currentTime env) in
  result (play_audio env message) s = Ok tt
  /\ chat_view s' = chat_view s
  /\ outputAudioContextRef s' = outputAudioContextRef s
  /\ ((audioOut s' = audioOut s
       /\ (nextStartTimeRef s' = nextStartTimeRef s \/ nextStartTimeRef s' = clamped))
      \/ exists c,
           audioOut s' = audioOut s ++ [c]
           /\ sc_when c = clamped
           /\ sc_clock c = currentTime env
           /\ (0 <= sc_duration c)%Q
           /\ nextStartTimeRef s' = unit_end c).
Proof.
  cbv zeta. unfold exec, result. rewrite play_audio_eq.
  assert (Hskip : forall r : Exc unit * App,
             r = (Ok tt, s) ->
             fst r = Ok tt /\ chat_view (snd r) = chat_view s
             /\ outputAudioContextRef (snd r) = outputAudioContextRef s
             /\ ((audioOut (snd r) = audioOut s
                  /\ (nextStartTimeRef (snd r) = nextStartTimeRef s
                      \/ nextStartTimeRef (snd r)
                         = Math_max (nextStartTimeRef s) (currentTime env)))
                 \/ exists c,
                      audioOut (snd r) = audioOut s ++ [c]
                      /\ sc_when c = Math_max (nextStartTimeRef s) (currentTime env)
                      /\ sc_clock c = currentTime env
                      /\ (0 <= sc_duration c)%Q
                      /\ nextStartTimeRef (snd r) = unit_end c)).
  { intros r ->. cbn. repeat split. left. split; [reflexivity | now left]. }
  destruct (base64Audio message) as [base64|]; [|now apply Hskip].
  destruct (outputAudioContextRef s) as [ctx|] eqn:Ectx; [|now apply Hskip].
  destruct (truthy base64); [|now apply Hskip].
  destruct (schedule_audio_fields env base64 s) as [Hr [Hc [Hctx Ha]]].
  unfold exec, result in *.
  split; [exact Hr|]. split; [exact Hc|]. split; [congruence|].
  destruct Ha as [[Ha Hw] | Ha]; [left | right]; auto.
Qed.

Lemma when_fields (b : bool) (m : M unit) (s : App) :
  result m s = Ok tt ->
  result (when b m) s = Ok tt
  /\ exec (when b m) s = if b then exec m s else s.
Proof.
  intros H. destruct b; cbn; auto.
Qed.

(** [onmessage] as four steps in sequence; none of them throws. *)
Lemma onmessage_steps (env : Env) (message : LiveServerMessage) (s : App) :
  let s1 := exec (accumulate_transcription message) s in
  let s2 := if sc_flag turnComplete message then exec (flush_turn env) s1 else s1 in
  let s3 := exec (play_audio env message) s2 in
  let s4 := if sc_flag interrupted message then exec stopAllAudio s3 else s3 in
  onmessage env message s = (Ok tt, s4).
Proof.
  cbv zeta. rewrite run_eq. unfold onmessage.
  destruct (accumulate_fields message s) as [R1 _].
  set (s1 := exec (accumulate_transcription message) s) in *.
  destruct (when_fields (sc_flag turnComplete message) (flush_turn env) s1) as [R2 E2].
  { apply flush_fields. }
  set (s2 := if sc_flag turnComplete message then exec (flush_turn env) s1 else s1) in *.
  destruct (play_audio_fields env message s2) as [R3 _].
  set (s3 := exec (play_audio env message) s2) in *.
  destruct (when_fields (sc_flag interrupted message) stopAllAudio s3) as [R4 E4].
  { apply stopAllAudio_fields. }
  f_equal.
  - rewrite (result_bind _ _ _ _ R1). fold s1.
    rewrite (result_bind _ _ _ _ R2). rewrite E2. fold s2.
    rewrite (result_bind _ _ _ _ R3). fold s3. exact R4.
  - rewrite (exec_bind _ _ _ _ R1). fold s1.
    rewrite (exec_bind _ _ _ _ R2). rewrite E2. fold s2.
    rewrite (exec_bind _ _ _ _ R3). fold s3. exact E4.
Qed.

(** ** The handler of a message, suspended and resumed *)

Lemma mbind_ok {A B : Type} (m : M A) (k : A -> M B) (s : App) (a : A) :
  result m s = Ok a -> mbind m k s = k a (exec m s).
Proof.
  unfold result, exec, mbind. destruct (m s) as [[x|e] s']; simpl; intros H.
  - now inversion H.
  - discriminate.
Qed.

Lemma play_audio_begin_eq (env : Env) (message : LiveServerMessage) (s : App) :
  play_audio_begin env message s
  = match base64Audio message, outputAudioContextRef s with
    | Some base64, Some _ =>
        if truthy base64
        then
          let s1 := set_nextStartTimeRef
                      (Math_max (nextStartTimeRef s) (currentTime env))
                      (set_isSpeaking true s) in
          match decode base64 with
          | Throw _ =>
              (Ok None,
               set_console (console s ++ [(LogError, "Audio playback error:"%string)]) s1)
          | Ok bytes =>
              (Ok (Some (mkSuspended message (decodeAudioData bytes 24000 1))), s1)
          end
        else (Ok None, s)
    | _, _ => (Ok None, s)
    end.
Proof.
  unfold play_audio_begin, console_error. unfold mbind at 1, gets at 1.
  destruct (base64Audio message) as [base64|]; [|reflexivity].
  destruct (outputAudioContextRef s) as [ctx|]; [|reflexivity].
  destruct (truthy base64); [|reflexivity].
  unfold_monad. destruct (decode base64); reflexivity.
Qed.

Lemma onmessage_begin_eq (env : Env) (message : LiveServerMessage) (s : App) :
  let s1 := exec (accumulate_transcription message) s in
  let s2 := if sc_flag turnComplete message then exec (flush_turn env) s1 else s1 in
  onmessage_begin env message s
  = match play_audio_begin env message s2 with
    | (Ok (Some suspended), s3) => (Ok (Some suspended), s3)
    | (Ok None, s3) =>
        (Ok None, if sc_flag interrupted message then exec stopAllAudio s3 else s3)
    | (Throw e, s3) => (Throw e, s3)
    end.
Proof.
  cbv zeta. unfold onmessage_begin.
  destruct (accumulate_fields message s) as [R1 _].
  rewrite (mbind_ok _ _ _ _ R1).
  set (s1 := exec (accumulate_transcription message) s).
  destruct (when_fields (sc_flag turnComplete message) (flush_turn env) s1) as [R2 E2].
  { apply flush_fields. }
  rewrite (mbind_ok _ _ _ _ R2), E2.
  set (s2 := if sc_flag turnComplete message then exec (flush_turn env) s1 else s1).
  unfold mbind at 1.
  destruct (play_audio_begin env message s2) as [[[suspended|]|e] s3]; try reflexivity.
  destruct (when_fields (sc_flag interrupted message) stopAllAudio s3) as [R4 E4].
  { apply stopAllAudio_fields. }
  rewrite (mbind_ok _ _ _ _ R4), E4. reflexivity.
Qed.

Lemma onmessage_resume_eq (env : Env) (suspended : Suspended) (s : App) :
  let n := allocated s in
  let s3 :=
    match susp_decoded suspended with
    | Ok audioBuffer =>
        set_nextStartTimeRef (nextStartTimeRef s + duration audioBuffer)%Q
          (set_audioOut
             (audioOut s ++ [mkStartCall n (nextStartTimeRef s) (duration audioBuffer)
                               (currentTime env)])
             (set_activeSourcesRef
                (map (mark_started n)
                     (set_add (mkSource n audioBuffer false) (activeSourcesRef s)))
                (set_allocated (S n) s)))
    | Throw _ =>
        set_console (console s ++ [(LogError, "Audio playback error:"%string)]) s
    end in
  onmessage_resume env suspended s
  = (Ok tt,
     if sc_flag interrupted (susp_message suspended) then exec stopAllAudio s3 else s3).
Proof.
  cbv zeta. unfold onmessage_resume.
  assert (E : try_catch
                (audioBuffer <- lift (susp_decoded suspended) ;;
                 source <- createBufferSource audioBuffer ;;
                 modify (fun s => set_activeSourcesRef
                                    (set_add source (activeSourcesRef s)) s) ;;
                 when_ <- gets nextStartTimeRef ;;
                 source_start env source when_ ;;
                 modify (fun s => set_nextStartTimeRef
                                    (nextStartTimeRef s + duration audioBuffer)%Q s))
                (fun _ => console_error "Audio playback error:") s
              = (Ok tt,
                 match susp_decoded suspended with
                 | Ok audioBuffer =>
                     set_nextStartTimeRef (nextStartTimeRef s + duration audioBuffer)%Q
                       (set_audioOut
                          (audioOut s ++ [mkStartCall (allocated s) (nextStartTimeRef s)
                                            (duration audioBuffer) (currentTime env)])
                          (set_activeSourcesRef
                             (map (mark_started (allocated s))
                                  (set_add (mkSource (allocated s) audioBuffer false)
                                           (activeSourcesRef s)))
                             (set_allocated (S (allocated s)) s)))
                 | Throw _ =>
                     set_console
                       (console s ++ [(LogError, "Audio playback error:"%string)]) s
                 end)).
  { unfold createBufferSource, source_start, console_error. unfold_monad.
    destruct (susp_decoded suspended); reflexivity. }
  unfold mbind at 1. rewrite E.
  destruct (when_fields (sc_flag interrupted (susp_message suspended)) stopAllAudio
              (match susp_decoded suspended with
               | Ok audioBuffer =>
                   set_nextStartTimeRef (nextStartTimeRef s + duration audioBuffer)%Q
                     (set_audioOut
                        (audioOut s ++ [mkStartCall (allocated s) (nextStartTimeRef s)
                                          (duration audioBuffer) (currentTime env)])
                        (set_activeSourcesRef
                           (map (mark_started (allocated s))
                                (set_add (mkSource (allocated s) audioBuffer false)
                                         (activeSourcesRef s)))
                           (set_allocated (S (allocated s)) s)))
               | Throw _ =>
                   set_console
                     (console s ++ [(LogError, "Audio playback error:"%string)]) s
               end)) as [R4 E4].
  { apply stopAllAudio_fields. }
  cbn beta iota. rewrite run_eq, R4, E4. reflexivity.
Qed.

(** ** Scheduling (claims C1, C4, C5) *)

Lemma onmessage_exec (env : Env) (message : LiveServerMessage) (s : App) :
  exec (onmessage env message) s
  = let s1 := exec (accumulate_transcription message) s in
    let s2 := if sc_flag turnComplete message then exec (flush_turn env) s1 else s1 in
    let s3 := exec (play_audio env message) s2 in
    if sc_flag interrupted message then exec stopAllAudio s3 else s3.
Proof.
  unfold exec at 1. now rewrite onmessage_steps.
Qed.

Lemma transcript_steps_audio (env : Env) (message : LiveServerMessage) (s : App) :
  let s1 := exec (accumulate_transcription message) s in
  let s2 := if sc_flag turnComplete message then exec (flush_turn env) s1 else s1 in
  audio_view s2 = audio_view s.
Proof.
  cbv zeta.
  destruct (accumulate_fields message s) as [_ [_ [_ [_ H1]]]].
  destruct (sc_flag turnComplete message); [|exact H1].
  destruct (flush_fields env (exec (accumulate_transcription message) s))
    as [_ [_ [_ [_ H2]]]].
  congruence.
Qed.

Lemma onmessage_schedule (env : Env) (message : LiveServerMessage) (s : App) :
  let s' := exec (onmessage env message) s in
  let clamped := Math_max (nextStartTimeRef s) (currentTime env) in
  ((audioOut s' = audioOut s
    /\ (sc_flag interrupted message = false ->
        (nextStartTimeRef s <= nextStartTimeRef s')%Q))
   \/ exists c,
        audioOut s' = audioOut s ++ [c]
        /\ sc_when c = clamped
        /\ sc_clock c = currentTime env
        /\ (0 <= sc_duration c)%Q
        /\ (sc_flag interrupted message = false -> nextStartTimeRef s' = unit_end c))
  /\ (sc_flag interrupted message = true ->
      nextStartTimeRef s' = 0%Q /\ activeSourcesRef s' = []).
Proof.
  cbv zeta. rewrite onmessage_exec. cbv zeta.
  pose proof (transcript_steps_audio env message s) as Hv. cbv zeta in Hv.
  set (s2 := if sc_flag turnComplete message
             then exec (flush_turn env) (exec (accumulate_transcription message) s)
             else exec (accumulate_transcription message) s) in *.
  unfold audio_view in Hv.
  assert (Hw : nextStartTimeRef s2 = nextStartTimeRef s) by congruence.
  assert (Hact : activeSourcesRef s2 = activeSourcesRef s) by congruence.
  assert (Hout : audioOut s2 = audioOut s) by congruence.
  clear Hv.
  destruct (play_audio_fields env message s2) as [_ [_ [_ Ha]]].
  set (s3 := exec (play_audio env message) s2) in *.
  rewrite Hw, Hout in Ha.
  destruct (stopAllAudio_fields s3) as [_ [Sw [Sact [Sout _]]]].
  destruct (sc_flag interrupted message); (split; [|intros E; try discriminate; auto]).
  - destruct Ha as [[Ha _] | [c [Ha [H1 [H2 [H3 _]]]]]].
    + left. split; [congruence | discriminate].
    + right. exists c. repeat split; try assumption; congruence.
  - destruct Ha as [[Ha Hn] | [c [Ha [H1 [H2 [H3 H4]]]]]].
    + left. split; [congruence|]. intros _.
      destruct Hn as [-> | ->]; [rewrite <- Hw; apply Qle_refl | apply Q.le_max_l].
    + right. exists c. repeat split; try assumption; congruence.
Qed.


Lemma run_messages_cons (em : Env * LiveServerMessage)
      (ms : list (Env * LiveServerMessage)) (s : App) :
  run_messages (em :: ms) s = run_messages ms (exec (onmessage (fst em) (snd em)) s).
Proof.
  reflexivity.
Qed.





Lemma run_messages_not_in_past (ms : list (Env * LiveServerMessage)) (s : App) :
  exists units,
    audioOut (run_messages ms s) = audioOut s ++ units
    /\ Forall not_in_past units.
Proof.
  revert s. induction ms as [|em ms IH]; intros s.
  - exists []. simpl. split; [now rewrite app_nil_r | constructor].
  - rewrite run_messages_cons.
    destruct (onmessage_schedule (fst em) (snd em) s) as [Hstep _].
    set (s' := exec (onmessage (fst em) (snd em)) s) in *.
    destruct (IH s') as [units [Hout Hp]].
    destruct Hstep as [[Ha _] | [c [Ha [H1 [H2 _]]]]].
    + exists units. split; [congruence | exact Hp].
    + exists (c :: units). split.
      * rewrite Hout, Ha, <- app_assoc. reflexivity.
      * constructor; [|exact Hp].
        unfold not_in_past. rewrite H1, H2. apply Q.le_max_r.
Qed.

(** After a reset of the watermark to zero the next unit starts at the clock
    of its scheduling. *)
Lemma first_unit_after_reset (env : Env) (message : LiveServerMessage) (s : App)
      (c : StartCall) :
  nextStartTimeRef s = 0%Q ->
  (0 <= currentTime env)%Q ->
  audioOut (exec (onmessage env message) s) = audioOut s ++ [c] ->
  (sc_when c == currentTime env)%Q.
Proof.
  intros Hzero Hclock Hout.
  destruct (onmessage_schedule env message s) as [[[Ha _] | [c' [Ha [H1 _]]]] _].
  - rewrite Ha in Hout. rewrite <- (app_nil_r (audioOut s)) in Hout at 1.
    apply app_inv_head in Hout. discriminate.
  - rewrite Ha in Hout. apply app_inv_head in Hout. inversion Hout; subst c'.
    rewrite H1, Hzero. unfold Math_max. now apply Q.max_r.
Qed.

(** When the handler of a message carrying the interrupted flag runs whole and
    no handler is suspended at a decoding, the active playback set is left
    empty; every unit scheduled by later handlers that run whole starts no
    earlier than the output clock at its scheduling, and the first one starts
    at that clock. *)
Lemma whole_interrupt_clears_playback (env : Env) (message : LiveServerMessage) (s : App) :
  sc_flag interrupted message = true ->
  let s1 := exec (onmessage env message) s in
  activeSourcesRef s1 = []
  /\ (forall ms, exists units,
         audioOut (run_messages ms s1) = audioOut s1 ++ units
         /\ Forall not_in_past units)
  /\ (forall env2 message2 c,
         (0 <= currentTime env2)%Q ->
         audioOut (exec (onmessage env2 message2) s1) = audioOut s1 ++ [c] ->
         (sc_when c == currentTime env2)%Q).
Proof.
  intros Hint s1.
  destruct (onmessage_schedule env message s) as [_ H].
  destruct (H Hint) as [Hw Hact]. fold s1 in Hw, Hact.
  split; [exact Hact | split].
  - intros ms. apply run_messages_not_in_past.
  - intros env2 message2 c Hclock Hout.
    exact (first_unit_after_reset env2 message2 s1 c Hw Hclock Hout).
Qed.

(** C4 fails in the code when the interruption is handled while an earlier
    chunk is being decoded.  The chunk arrives at clock 5 and its handler
    clamps the watermark to 5 and suspends; the interruption empties the
    active set and resets the watermark to zero; the handler of the chunk then
    resumes, adds its unit to the emptied set and starts it at time 0, before
    the output clock.  No [stop] ever reaches that unit and [isSpeaking] stays
    off while it plays. *)
Lemma interrupt_during_decode_starts_stale_unit :
  let s := fst interrupted_while_decoding in
  snd interrupted_while_decoding = []
  /\ audioOut s = [mkStartCall 1 0 (1 # 24000) 5]
  /\ ~ Forall not_in_past (audioOut s)
  /\ map node_id (activeSourcesRef s) = [1%nat]
  /\ activeSourcesRef s <> []
  /\ audioStops s = []
  /\ isSpeaking s = false.
Proof.
  cbv zeta.
  assert (Hout : audioOut (fst interrupted_while_decoding)
                 = [mkStartCall 1 0 (1 # 24000) 5]) by (vm_compute; reflexivity).
  assert (Hact : map node_id (activeSourcesRef (fst interrupted_while_decoding))
                 = [1%nat]) by (vm_compute; reflexivity).
  split; [vm_compute; reflexivity|].
  split; [exact Hout|].
  split.
  { rewrite Hout. intros H. inversion_clear H as [|? ? Hc _].
    unfold not_in_past in Hc. cbn in Hc. unfold Qle in Hc. cbn in Hc. lia. }
  split; [exact Hact|].
  split.
  { intros Hnil. rewrite Hnil in Hact. discriminate. }
  split; vm_compute; reflexivity.
Qed.

(** C5, as the code has it: an interruption flush resets the watermark to
    zero, whatever the output clock reads.  This holds right after
    [stopAllAudio], and at the end of the handler of a message carrying the
    interrupted flag, whether the handler ran whole or was resumed after a
    decoding, and whatever the decoding gave. *)
Theorem interrupt_resets_watermark_to_zero (env : Env) (message : LiveServerMessage)
        (s : App) :
  sc_flag interrupted message = true ->
  result stopAllAudio s = Ok tt
  /\ nextStartTimeRef (exec stopAllAudio s) = 0%Q
  /\ nextStartTimeRef (exec (onmessage env message) s) = 0%Q
  /\ forall decoded,
       nextStartTimeRef (exec (onmessage_resume env (mkSuspended message decoded)) s)
       = 0%Q.
Proof.
  intros Hint.
  destruct (stopAllAudio_fields s) as [Hr [Hw _]].
  destruct (onmessage_schedule env message s) as [_ H].
  destruct (H Hint) as [Hw1 _].
  repeat split; try assumption.
  intros decoded. unfold exec at 1. rewrite onmessage_resume_eq. cbv zeta.
  cbn [snd susp_message]. rewrite Hint. apply stopAllAudio_fields.
Qed.

Lemma interrupt_resets_watermark_to_zero_witness :
  sc_flag interrupted interrupt_message = true
  /\ nextStartTimeRef (exec (onmessage (sample_env 7) interrupt_message) playing) = 0%Q.
Proof.
  split; [reflexivity|].
  exact (proj1 (proj2 (proj2 (interrupt_resets_watermark_to_zero (sample_env 7)
                                interrupt_message playing eq_refl)))).
Defined.

(** C5 as stated fails: after an interruption at clock 6 the stored watermark
    is 0, not 6. *)
Lemma interrupt_watermark_is_not_clock :
  let s1 := exec (onmessage (sample_env 6) interrupt_message) playing in
  nextStartTimeRef s1 = 0%Q
  /\ ~ (nextStartTimeRef s1 == currentTime (sample_env 6))%Q.
Proof.
  split; [reflexivity|].
  vm_compute. discriminate.
Qed.

(** ** Transcript aggregation (claims C6 and C10) *)

Lemma append_assoc (a b c : string) : ((a ++ b) ++ c)%string = (a ++ (b ++ c))%string.
Proof.
  induction a as [|x a IH]; simpl; [reflexivity | now f_equal].
Qed.

Lemma onmessage_chat (env : Env) (message : LiveServerMessage) (s : App) :
  let s' := exec (onmessage env message) s in
  let assistantText :=
    (currentOutputTranscriptionRef s ++ out_fragment message)%string in
  if sc_flag turnComplete message
  then messages s'
       = messages s
         ++ (if truthy assistantText
             then [mkMessage (random_id env) assistant assistantText (now env)]
             else [])
       /\ currentOutputTranscriptionRef s' = EmptyString
       /\ currentInputTranscriptionRef s' = EmptyString
  else messages s' = messages s
       /\ currentOutputTranscriptionRef s' = assistantText
       /\ currentInputTranscriptionRef s'
          = (currentInputTranscriptionRef s ++ in_fragment message)%string.
Proof.
  cbv zeta. rewrite onmessage_exec. cbv zeta.
  destruct (accumulate_fields message s) as [_ [Hout [Hin [Hm _]]]].
  set (s1 := exec (accumulate_transcription message) s) in *.
  destruct (flush_fields env s1) as [_ [Fm [Fout [Fin _]]]].
  set (s2 := if sc_flag turnComplete message then exec (flush_turn env) s1 else s1).
  destruct (play_audio_fields env message s2) as [_ [Hc _]].
  set (s3 := exec (play_audio env message) s2) in *.
  destruct (stopAllAudio_fields s3) as [_ [_ [_ [_ [_ Sc]]]]].
  set (s4 := if sc_flag interrupted message then exec stopAllAudio s3 else s3).
  assert (H4 : chat_view s4 = chat_view s2).
  { unfold s4. destruct (sc_flag interrupted message); congruence. }
  unfold chat_view in H4.
  assert (H4m : messages s4 = messages s2) by congruence.
  assert (H4i : currentInputTranscriptionRef s4 = currentInputTranscriptionRef s2)
    by congruence.
  assert (H4o : currentOutputTranscriptionRef s4 = currentOutputTranscriptionRef s2)
    by congruence.
  rewrite H4m, H4i, H4o. unfold s2.
  destruct (sc_flag turnComplete message).
  - rewrite Fm, Fout, Fin, Hm, Hout. auto.
  - auto.
Qed.

Lemma run_messages_accumulates (ms : list (Env * LiveServerMessage)) (s : App) :
  no_turn_complete ms ->
  let s' := run_messages ms s in
  messages s' = messages s
  /\ currentOutputTranscriptionRef s'
     = (currentOutputTranscriptionRef s ++ join (map (fun em => out_fragment (snd em)) ms))%string
  /\ currentInputTranscriptionRef s'
     = (currentInputTranscriptionRef s ++ join (map (fun em => in_fragment (snd em)) ms))%string.
Proof.
  intros H. revert s. induction H as [|em ms Hem _ IH]; intros s.
  - simpl. now rewrite !append_empty.
  - cbv zeta. rewrite run_messages_cons.
    pose proof (onmessage_chat (fst em) (snd em) s) as Hstep. cbv zeta in Hstep.
    rewrite Hem in Hstep. destruct Hstep as [Hm [Hout Hin]].
    destruct (IH (exec (onmessage (fst em) (snd em)) s)) as [IHm [IHout IHin]].
    rewrite IHm, IHout, IHin, Hm, Hout, Hin. simpl.
    now rewrite !append_assoc.
Qed.

(** C6: when the turn-complete signal arrives after a run of fragments, the
    log grows by exactly one assistant Message whose text is the outbound
    accumulator followed by the fragments in arrival order, or by nothing when
    that text is empty; both accumulators are empty afterwards. *)
Theorem turn_complete_flushes_once
        (ms : list (Env * LiveServerMessage)) (env : Env)
        (message : LiveServerMessage) (s : App) :
  no_turn_complete ms ->
  sc_flag turnComplete message = true ->
  let s' := exec (onmessage env message) (run_messages ms s) in
  let assistantText :=
    (currentOutputTranscriptionRef s
     ++ join (map (fun em => out_fragment (snd em)) ms)
     ++ out_fragment message)%string in
  messages s'
  = messages s
    ++ (if truthy assistantText
        then [mkMessage (random_id env) assistant assistantText (now env)]
        else [])
  /\ currentOutputTranscriptionRef s' = EmptyString
  /\ currentInputTranscriptionRef s' = EmptyString.
Proof.
  intros Hms Htc. cbv zeta.
  destruct (run_messages_accumulates ms s Hms) as [Hm [Hout _]].
  pose proof (onmessage_chat env message (run_messages ms s)) as Hstep.
  cbv zeta in Hstep. rewrite Htc in Hstep.
  rewrite Hm, Hout, append_assoc in Hstep. exact Hstep.
Qed.

Lemma turn_complete_flushes_once_witness :
  let ms := [(sample_env 1, output_message "Hel"); (sample_env 2, output_message "lo")] in
  let s' := exec (onmessage (sample_env 3) turn_complete_message)
                 (run_messages ms connected) in
  no_turn_complete ms
  /\ sc_flag turnComplete turn_complete_message = true
  /\ messages s'
     = messages connected ++ [mkMessage "k3x9q0a7b" assistant "Hello" 1700000000]
  /\ currentOutputTranscriptionRef s' = EmptyString
  /\ currentInputTranscriptionRef s' = EmptyString.
Proof.
  intros ms s'.
  assert (H : no_turn_complete ms) by (repeat constructor).
  split; [exact H | split; [reflexivity|]].
  exact (turn_complete_flushes_once ms (sample_env 3) turn_complete_message connected
           H eq_refl).
Defined.

(** ** [handleStopSession] (claim C7) *)

Ltac run_handler :=
  unfold_monad; cbn -[stopAllAudio];
  repeat (rewrite stopAllAudio_eq; cbn -[stopAllAudio]).

Lemma handleStopSession_fields (env : Env) (s : App) :
  let s1 := exec (handleStopSession env) s in
  result (handleStopSession env) s = Ok tt
  /\ status s1 = DISCONNECTED
  /\ isListening s1 = false
  /\ isSpeaking s1 = false
  /\ sessionRef s1 = None
  /\ scriptProcessorRef s1 = None
  /\ activeSourcesRef s1 = []
  /\ nextStartTimeRef s1 = 0%Q
  /\ messages s1 = messages s.
Proof.
  unfold exec, result, handleStopSession, session_close, processor_disconnect.
  destruct (sessionRef s) as [current|] eqn:Es;
    destruct (close_throws env);
    destruct (scriptProcessorRef s) as [p|] eqn:Ep;
    run_handler; rewrite ?Es, ?Ep; run_handler; rewrite ?Ep; run_handler;
    repeat split; solve [reflexivity | assumption].
Qed.

Lemma handleStopSession_stopped (env : Env) (s : App) :
  status s = DISCONNECTED -> isListening s = false -> isSpeaking s = false ->
  sessionRef s = None -> scriptProcessorRef s = None ->
  activeSourcesRef s = [] -> nextStartTimeRef s = 0%Q ->
  handleStopSession env s = (Ok tt, s).
Proof.
  destruct s. cbn. intros -> -> -> -> -> -> ->.
  unfold handleStopSession. run_handler. now rewrite app_nil_r.
Qed.

(** C7: from any state, [handleStopSession] returns without an error and
    leaves the session stopped (status DISCONNECTED, no session handle, no
    capture node, no active playback unit); a second call returns without an
    error as well and changes nothing at all. *)
Theorem stop_is_idempotent (env1 env2 : Env) (s : App) :
  let s1 := exec (handleStopSession env1) s in
  result (handleStopSession env1) s = Ok tt
  /\ handleStopSession env2 s1 = (Ok tt, s1)
  /\ status s1 = DISCONNECTED
  /\ sessionRef s1 = None
  /\ scriptProcessorRef s1 = None
  /\ activeSourcesRef s1 = [].
Proof.
  cbv zeta.
  destruct (handleStopSession_fields env1 s)
    as [Hr [Hst [Hl [Hsp [Hse [Hp [Ha [Hw _]]]]]]]].
  repeat split; try assumption.
  now apply handleStopSession_stopped.
Qed.

(** ** [handleSendText] (claim C8) *)

Lemma truthy_empty (s : string) : truthy s = false <-> s = EmptyString.
Proof.
  destruct s; simpl; split; intros H; congruence.
Qed.

Lemma status_eqb_eq (a b : ConnectionStatus) : status_eqb a b = true <-> a = b.
Proof.
  destruct a, b; simpl; split; intros H; congruence.
Qed.

Lemma handleSendText_guard (env : Env) (s : App) :
  status s <> CONNECTED \/ sessionRef s = None \/ trim (inputText s) = EmptyString ->
  handleSendText env s = (Ok tt, s).
Proof.
  intros H. unfold handleSendText. unfold mbind, gets.
  assert (G : negb (truthy (trim (inputText s))) || is_null (sessionRef s)
              || negb (status_eqb (status s) CONNECTED) = true).
  { destruct H as [H | [H | H]].
    - destruct (status_eqb (status s) CONNECTED) eqn:E.
      + apply status_eqb_eq in E. contradiction.
      + simpl. apply orb_true_r.
    - rewrite H. simpl. now rewrite orb_true_r.
    - apply truthy_empty in H. now rewrite H. }
  now rewrite G.
Qed.

Lemma handleSendText_connected (env : Env) (s : App) (session : Session) :
  status s = CONNECTED -> sessionRef s = Some session ->
  trim (inputText s) <> EmptyString ->
  handleSendText env s
  = if send_throws env
    then (Ok tt, set_console (console s ++ [(LogError, "Failed to send text input:"%string)]) s)
    else (Ok tt,
          set_inputText EmptyString
            (set_messages
               (messages s ++ [mkMessage (random_id env) user (trim (inputText s)) (now env)])
               (set_transport
                  (transport s ++ [(session, TextInput (trim (inputText s)))]) s))).
Proof.
  intros Hst Hse Htext.
  unfold handleSendText. unfold mbind at 1 2 3, gets.
  rewrite Hst, Hse.
  destruct (truthy (trim (inputText s))) eqn:Et.
  - cbn [negb orb is_null status_eqb]. unfold sendRealtimeInput, console_error.
    destruct (send_throws env); unfold_monad; reflexivity.
  - apply truthy_empty in Et. contradiction.
Qed.

(** C8, as the code has it: [handleSendText] changes nothing and sends nothing
    when the status is not CONNECTED, when no session handle is stored, or
    when the input is empty or white space only.  With status CONNECTED, a
    stored handle and other input, it forwards the trimmed text to the
    transport, appends one user Message holding it and clears the input, in
    one step, and changes nothing else; when the send throws, the error is
    logged and the state is otherwise unchanged: nothing is appended, nothing
    reaches the transport and the input is kept. *)
Theorem sendText_needs_connection_and_handle (env : Env) (s : App) :
  let s' := exec (handleSendText env) s in
  let textToSend := trim (inputText s) in
  result (handleSendText env) s = Ok tt
  /\ (status s <> CONNECTED \/ sessionRef s = None \/ textToSend = EmptyString ->
      s' = s)
  /\ (forall session,
         status s = CONNECTED -> sessionRef s = Some session ->
         textToSend <> EmptyString ->
         if send_throws env
         then s' = set_console
                     (console s ++ [(LogError, "Failed to send text input:"%string)]) s
              /\ messages s' = messages s /\ transport s' = transport s
              /\ inputText s' = inputText s /\ status s' = status s
         else s' = set_inputText EmptyString
                     (set_messages
                        (messages s
                         ++ [mkMessage (random_id env) user textToSend (now env)])
                        (set_transport
                           (transport s ++ [(session, TextInput textToSend)]) s))
              /\ messages s'
                 = messages s ++ [mkMessage (random_id env) user textToSend (now env)]
              /\ transport s' = transport s ++ [(session, TextInput textToSend)]
              /\ inputText s' = EmptyString /\ status s' = status s).
Proof.
  cbv zeta. unfold exec, result.
  destruct (status_eqb (status s) CONNECTED) eqn:Est.
  - apply status_eqb_eq in Est.
    destruct (sessionRef s) as [session|] eqn:Ese.
    + destruct (truthy (trim (inputText s))) eqn:Et.
      * assert (Hne : trim (inputText s) <> EmptyString).
        { intros E. apply truthy_empty in E. congruence. }
        rewrite (handleSendText_connected env s session Est Ese Hne).
        split; [now destruct (send_throws env)|]. split.
        -- intros [H | [H | H]]; congruence.
        -- intros session' _ Hs _. inversion Hs; subst session'.
           destruct (send_throws env); cbn; repeat split; reflexivity.
      * apply truthy_empty in Et.
        rewrite (handleSendText_guard env s) by auto.
        split; [reflexivity|]. split; [reflexivity|].
        intros; contradiction.
    + rewrite (handleSendText_guard env s) by auto.
      split; [reflexivity|]. split; [reflexivity|]. intros; discriminate.
  - assert (Hne : status s <> CONNECTED).
    { intros E. apply status_eqb_eq in E. congruence. }
    rewrite (handleSendText_guard env s) by auto.
    split; [reflexivity|]. split; [reflexivity|]. intros; contradiction.
Qed.

Lemma sendText_needs_connection_and_handle_witness :
  let s := set_inputText "  hello Lumi " connected in
  let s' := exec (handleSendText (sample_env 2)) s in
  messages s' = messages s ++ [mkMessage "k3x9q0a7b" user "hello Lumi" 1700000000]
  /\ transport s' = transport s ++ [(mkSession 1, TextInput "hello Lumi")]
  /\ inputText s' = EmptyString /\ status s' = CONNECTED.
Proof.
  intros s s'.
  refine (proj2 (proj2 (proj2 (sendText_needs_connection_and_handle (sample_env 2) s))
                   (mkSession 1) eq_refl eq_refl _)).
  discriminate.
Defined.

(** C8 as stated fails while the connect promise of a restarted session has
    not resolved: the status is CONNECTED, the session handle is still null,
    and the text typed earlier is neither sent nor appended. *)
Lemma sendText_dropped_without_handle :
  status reopened = CONNECTED
  /\ sessionRef reopened = None
  /\ trim (inputText reopened) = "hello"%string
  /\ handleSendText (sample_env 4) reopened = (Ok tt, reopened)
  /\ messages (exec (handleSendText (sample_env 4)) reopened) = messages reopened
  /\ transport (exec (handleSendText (sample_env 4)) reopened) = transport reopened.
Proof.
  repeat split; reflexivity.
Qed.

(** ** The capture loop (claim C9) *)

Lemma onaudioprocess_eq (env : Env) (p : ScriptProcessorNode)
      (inputData : Float32Array) (s : App) :
  onaudioprocess env p inputData s
  = (Ok tt,
     if send_throws env then s
     else set_transport
            (transport s ++ [(sp_session p, MediaInput (pcmBlob inputData))]) s).
Proof.
  unfold onaudioprocess, sendRealtimeInput.
  destruct (send_throws env); unfold_monad; reflexivity.
Qed.

Lemma capture_eq (p : ScriptProcessorNode) (frames : list (Env * Float32Array))
      (s : App) :
  capture p frames s = (Ok tt, set_transport (transport s ++ delivered p frames) s).
Proof.
  unfold capture, delivered. revert s.
  induction frames as [|[env inputData] r IH]; intros s.
  - cbn. rewrite app_nil_r. now destruct s.
  - cbn [forEach fst snd filter]. unfold mbind at 1.
    rewrite onaudioprocess_eq, IH.
    destruct (send_throws env); cbn [negb map].
    + reflexivity.
    + destruct s; cbn. now rewrite <- app_assoc.
Qed.

(** C9, as the code has it: a failing transport send of a frame is caught and
    dropped without a log entry; the capture callback never throws, the loop
    goes on to the following frames, the frames whose send succeeds reach the
    transport in capture order, and nothing else of the state changes (the
    status and the session handle in particular). *)
Theorem capture_survives_send_failures
        (p : ScriptProcessorNode) (frames : list (Env * Float32Array)) (s : App) :
  let s' := exec (capture p frames) s in
  result (capture p frames) s = Ok tt
  /\ s' = set_transport (transport s ++ delivered p frames) s
  /\ transport s' = transport s ++ delivered p frames
  /\ console s' = console s
  /\ status s' = status s
  /\ sessionRef s' = sessionRef s
  /\ scriptProcessorRef s' = scriptProcessorRef s.
Proof.
  cbv zeta. unfold exec, result. rewrite capture_eq. cbn.
  repeat split; reflexivity.
Qed.

(** C9 as stated fails on the logging: a frame whose send throws leaves the
    console as it was, and the frame after it is still delivered. *)
Lemma failed_frame_send_is_not_logged :
  let p := mkProcessor 0 (mkSession 1) in
  let s' := exec (capture p [(failing_env 0, [1 # 2]%Q); (sample_env 0, [1 # 4]%Q)])
                 connected in
  exec (onaudioprocess (failing_env 0) p [1 # 2]%Q) connected = connected
  /\ console s' = console connected
  /\ transport s'
     = transport connected ++ [(mkSession 1, MediaInput (pcmBlob [1 # 4]%Q))].
Proof.
  repeat split; reflexivity.
Qed.

(** ** Who appends to the conversation log (claim C10) *)

Lemma handleStartSession_begin_messages (env : Env) (s : App) :
  messages (exec (handleStartSession_begin env) s) = messages s.
Proof.
  unfold exec, handleStartSession_begin, start_failed, session_close,
    processor_disconnect, console_error.
  destruct (sessionRef s) as [current|] eqn:Es;
    destruct (close_throws env);
    destruct (scriptProcessorRef s) as [p|] eqn:Ep;
    destruct (audioContextRef s) as [input|] eqn:Ei;
    destruct (outputAudioContextRef s) as [output|] eqn:Eo;
    run_handler; rewrite ?Es, ?Ep, ?Ei, ?Eo; run_handler;
    rewrite ?Es, ?Ep, ?Ei, ?Eo; run_handler;
    rewrite ?Es, ?Ep, ?Ei, ?Eo; run_handler;
    rewrite ?Es, ?Ep, ?Ei, ?Eo; run_handler; reflexivity.
Qed.

Lemma handleStartSession_resume_messages (env : Env) (awaited : Awaited) (s : App) :
  messages (exec (handleStartSession_resume env awaited) s) = messages s.
Proof.
  unfold exec, handleStartSession_resume, start_failed, sendRealtimeInput,
    console_error.
  destruct awaited as [session|e]; [|run_handler; reflexivity].
  destruct (audioContextRef s) as [input|] eqn:Ei;
    destruct (send_throws env);
    run_handler; rewrite ?Ei; run_handler; reflexivity.
Qed.

Lemma onended_messages (source : nat) (s : App) :
  messages (exec (onended source) s) = messages s.
Proof.
  unfold exec, onended. run_handler.
  destruct (List.length (set_delete source (activeSourcesRef s)) =? 0)%nat;
    reflexivity.
Qed.

Lemma callbacks_messages (s : App) :
  messages (exec onopen s) = messages s
  /\ messages (exec onerror s) = messages s
  /\ messages (exec onclose s) = messages s.
Proof.
  unfold exec, onopen, onerror, onclose, console_log, console_error.
  repeat split; run_handler; reflexivity.
Qed.

Lemma onmessage_appends_assistant (env : Env) (message : LiveServerMessage) (s : App) :
  exists added,
    messages (exec (onmessage env message) s) = messages s ++ added
    /\ Forall (fun m => role m = assistant) added.
Proof.
  pose proof (onmessage_chat env message s) as H. cbv zeta in H.
  destruct (sc_flag turnComplete message).
  - destruct H as [H _]. rewrite H.
    destruct (truthy _); eexists; split; try reflexivity; repeat constructor.
  - destruct H as [H _]. exists []. rewrite H, app_nil_r. split; [reflexivity | constructor].
Qed.

Lemma run_messages_appends_assistant (ms : list (Env * LiveServerMessage)) (s : App) :
  exists added,
    messages (run_messages ms s) = messages s ++ added
    /\ Forall (fun m => role m = assistant) added.
Proof.
  revert s. induction ms as [|em ms IH]; intros s.
  - exists []. simpl. rewrite app_nil_r. split; [reflexivity | constructor].
  - rewrite run_messages_cons.
    destruct (onmessage_appends_assistant (fst em) (snd em) s) as [a1 [H1 F1]].
    destruct (IH (exec (onmessage (fst em) (snd em)) s)) as [a2 [H2 F2]].
    exists (a1 ++ a2). rewrite H2, H1, app_assoc.
    split; [reflexivity | now apply Forall_app].
Qed.

Lemma handle_keeps_user_messages (env : Env) (ev : Event) (s : App) (m : Message) :
  ev <> SendText ->
  In m (messages (exec (handle env ev) s)) -> role m = user -> In m (messages s).
Proof.
  intros Hev Hin Hrole.
  destruct ev as [| t | | | awaited | | | message | | | source | p inputData];
    cbn [handle] in Hin.
  - contradiction.
  - exact Hin.
  - destruct Hin.
  - now rewrite handleStartSession_begin_messages in Hin.
  - now rewrite handleStartSession_resume_messages in Hin.
  - destruct (handleStopSession_fields env s) as [_ [_ [_ [_ [_ [_ [_ [_ H]]]]]]]].
    now rewrite H in Hin.
  - destruct (callbacks_messages s) as [H _]. now rewrite H in Hin.
  - destruct (onmessage_appends_assistant env message s) as [added [H F]].
    rewrite H in Hin. apply in_app_or in Hin. destruct Hin as [Hin | Hin]; [exact Hin|].
    rewrite Forall_forall in F. specialize (F m Hin). congruence.
  - destruct (callbacks_messages s) as [_ [H _]]. now rewrite H in Hin.
  - destruct (callbacks_messages s) as [_ [_ H]]. now rewrite H in Hin.
  - now rewrite onended_messages in Hin.
  - unfold exec in Hin. rewrite onaudioprocess_eq in Hin.
    destruct (send_throws env); exact Hin.
Qed.

(** C10: whatever messages arrive, [onmessage] only ever appends assistant
    Messages, so the user Messages of the log stay as they were; a message
    without the turn-complete signal only extends the inbound accumulator, and
    one with the signal empties it without building a Message from it.  Among
    all events of the component, only [handleSendText] can put a user Message
    into the log. *)
Theorem user_messages_come_from_sendText :
  (forall ms s,
      (exists added,
          messages (run_messages ms s) = messages s ++ added
          /\ Forall (fun m => role m = assistant) added)
      /\ filter is_user (messages (run_messages ms s)) = filter is_user (messages s))
  /\ (forall env message s,
         currentInputTranscriptionRef (exec (onmessage env message) s)
         = if sc_flag turnComplete message then EmptyString
           else (currentInputTranscriptionRef s ++ in_fragment message)%string)
  /\ (forall env ev s m,
         ev <> SendText ->
         In m (messages (exec (handle env ev) s)) -> role m = user ->
         In m (messages s)).
Proof.
  split; [|split].
  - intros ms s.
    destruct (run_messages_appends_assistant ms s) as [added [H F]].
    split; [now exists added|].
    rewrite H, filter_app.
    assert (E : filter is_user added = []).
    { clear H. induction F as [|m r Hm _ IH]; simpl; [reflexivity|].
      unfold is_user at 1. now rewrite Hm. }
    now rewrite E, app_nil_r.
  - intros env message s.
    pose proof (onmessage_chat env message s) as H. cbv zeta in H.
    destruct (sc_flag turnComplete message); tauto.
  - exact handle_keeps_user_messages.
Qed.

Lemma user_messages_come_from_sendText_witness :
  let s := exec (handleSendText (sample_env 2)) (set_inputText "hello" connected) in
  let s' := exec (handle (sample_env 3) (ServerMessage turn_complete_message))
                 (run_messages [(sample_env 2, output_message "Hi there")] s) in
  let m := mkMessage "k3x9q0a7b" user "hello" 1700000000 in
  ServerMessage turn_complete_message <> SendText
  /\ In m (messages s') /\ role m = user
  /\ In m (messages (run_messages [(sample_env 2, output_message "Hi there")] s)).
Proof.
  intros s s' m.
  assert (H1 : ServerMessage turn_complete_message <> SendText) by discriminate.
  assert (H2 : In m (messages s')) by (left; reflexivity).
  repeat split; try assumption.
  exact (proj2 (proj2 user_messages_come_from_sendText) (sample_env 3)
           (ServerMessage turn_complete_message) _ m H1 H2 eq_refl).
Defined.

(** * Further properties of the code *)

(** ** The wire codec *)

Lemma length_string_of_list (l : list ascii) :
  String.length (string_of_list_ascii l) = List.length l.
Proof.
  induction l as [|c r IH]; simpl; [reflexivity | now rewrite IH].
Qed.

Lemma encoded_size (bs : list Z) :
  (List.length (to_sextets bs) + List.length (b64_padding (List.length bs))
   = 4 * ((List.length bs + 2) / 3))%nat.
Proof.
  induction bs as [| a | a b | a b c r IH] using list_ind3; try reflexivity.
  cbn [List.length]. rewrite b64_padding_step.
  cbn [to_sextets List.length].
  replace (S (S (S (List.length r))) + 2)%nat
    with (List.length r + 2 + 1 * 3)%nat by lia.
  rewrite Nat.div_add by lia. lia.
Qed.

Lemma b64_char_in_alphabet (n : Z) : is_sextet n -> In (b64_char n) b64_alphabet.
Proof.
  intros Hn. unfold b64_char. apply nth_In.
  unfold is_sextet in Hn. change (List.length b64_alphabet) with 64%nat. lia.
Qed.

(** Every byte array survives the wire: [decode] gives back exactly the bytes
    that [encode] was given, whatever they are and however many. *)
Theorem wire_codec_round_trip (bytes : Uint8Array) :
  decode (encode bytes) = Ok bytes
  /\ (forall other, encode other = encode bytes -> other = bytes).
Proof.
  split; [apply decode_encode|].
  intros other H.
  pose proof (decode_encode other) as Ho. rewrite H, decode_encode in Ho.
  now inversion Ho.
Qed.

(** The text of a chunk is text-safe and padded: it only holds characters of
    the base64 alphabet and the padding sign, and its length is four
    characters for every started group of three bytes. *)
Theorem encode_is_text_safe (bytes : Uint8Array) :
  Forall is_wire_char (list_ascii_of_string (encode bytes))
  /\ String.length (encode bytes) = (4 * ((List.length bytes + 2) / 3))%nat.
Proof.
  unfold encode. rewrite binary_string. cbn [String.append].
  unfold btoa. rewrite !list_ascii_of_string_of_list_ascii.
  set (bs := map code (map ascii_of_byte bytes)).
  assert (Hlen : List.length bs = List.length bytes)
    by (unfold bs; now rewrite !length_map).
  assert (Hbs : Forall is_byte bs).
  { unfold bs. apply Forall_forall. intros z Hz. apply in_map_iff in Hz.
    destruct Hz as [c [<- _]]. apply code_is_byte. }
  split.
  - apply Forall_app. split.
    + pose proof (to_sextets_range bs Hbs) as Hsx.
      apply Forall_forall. intros c Hc. apply in_map_iff in Hc.
      destruct Hc as [n [<- Hn]]. left. apply b64_char_in_alphabet.
      rewrite Forall_forall in Hsx. now apply Hsx.
    + assert (Hpad : is_wire_char "="%char) by (right; reflexivity).
      destruct (b64_padding_cases (List.length bs)) as [-> | [-> | ->]].
      * constructor.
      * constructor; [exact Hpad | constructor].
      * constructor; [exact Hpad | constructor; [exact Hpad | constructor]].
  - rewrite length_string_of_list, length_app, length_map, <- Hlen.
    apply encoded_size.
Qed.

(** ** Chunks of captured frames and decoded buffers *)

Lemma list_ind2 {A : Type} (P : list A -> Prop) :
  P [] -> (forall a, P [a]) -> (forall a b r, P r -> P (a :: b :: r)) ->
  forall l, P l.
Proof.
  intros H0 H1 H2. fix IH 1.
  intros [|a [|b r]]; [apply H0 | apply H1 | apply H2; apply IH].
Qed.

Lemma byte_val_range (b : byte) : 0 <= byte_val b <= 255.
Proof.
  unfold byte_val. pose proof (Byte.to_N_bounded b). lia.
Qed.

Lemma int16_of_bytes_cases (data : Uint8Array) :
  if Nat.even (List.length data)
  then exists a, int16_of_bytes data = Ok a
                 /\ List.length a = (List.length data / 2)%nat
                 /\ Forall is_int16 a
  else int16_of_bytes data = Throw RangeError.
Proof.
  induction data as [| lo | lo hi r IH] using list_ind2.
  - exists []. repeat split. constructor.
  - reflexivity.
  - cbn [List.length Nat.even]. cbn [int16_of_bytes].
    destruct (Nat.even (List.length r)).
    + destruct IH as [a [E [L F]]]. rewrite E. cbn [bind].
      eexists. split; [reflexivity|]. split.
      * cbn [List.length]. rewrite L.
        change (S (S (List.length r))) with (2 + List.length r)%nat.
        replace (2 + List.length r)%nat with (List.length r + 1 * 2)%nat by lia.
        rewrite Nat.div_add by lia. lia.
      * constructor; [|exact F].
        pose proof (byte_val_range lo). pose proof (byte_val_range hi).
        unfold is_int16.
        destruct (Z.leb_spec 32768 (byte_val lo + 256 * byte_val hi)); lia.
    + now rewrite IH.
Qed.

Lemma bytes_of_int16_length (a : Int16Array) :
  List.length (bytes_of_int16 a) = (2 * List.length a)%nat.
Proof.
  unfold bytes_of_int16. induction a as [|v r IH]; simpl; [reflexivity|].
  rewrite IH. lia.
Qed.

(** The chunk of a captured frame of N samples, whatever the samples are,
    carries 2N bytes under the type [audio/pcm;rate=16000]; read as 16-bit
    words, low byte first, they are the N stored values, all within the int16
    bounds. *)
Theorem frame_chunk_layout (inputData : Float32Array) :
  mimeType (pcmBlob inputData) = "audio/pcm;rate=16000"%string
  /\ exists bytes,
       decode (blob_data (pcmBlob inputData)) = Ok bytes
       /\ List.length bytes = (2 * List.length inputData)%nat
       /\ int16_of_bytes bytes = Ok (pcm16 inputData)
       /\ Forall is_int16 (pcm16 inputData).
Proof.
  split; [reflexivity|].
  exists (bytes_of_int16 (pcm16 inputData)).
  split; [apply decode_encode|]. split.
  - rewrite bytes_of_int16_length. unfold pcm16. now rewrite length_map.
  - split; [apply int16_bytes|]; apply pcm16_range.
Qed.

(** [decodeAudioData] on one channel, at a sample rate the context supports,
    succeeds exactly on a byte array of even, non-zero length: an odd length
    is a RangeError, no bytes at all a NotSupportedError, and otherwise the
    buffer holds half as many frames as there are bytes. *)
Theorem decodeAudioData_accepts_whole_frames (data : Uint8Array) (rate : Z) :
  supported_rate rate = true ->
  match decodeAudioData data rate 1 with
  | Ok buffer =>
      Nat.even (List.length data) = true /\ data <> []
      /\ length_frames buffer = (List.length data / 2)%nat
      /\ numberOfChannels buffer = 1%nat
      /\ sampleRate buffer = rate
  | Throw e =>
      (Nat.even (List.length data) = false /\ e = RangeError)
      \/ (data = [] /\ e = NotSupportedError)
  end.
Proof.
  intros Hrate. unfold decodeAudioData.
  pose proof (int16_of_bytes_cases data) as H.
  destruct (Nat.even (List.length data)) eqn:Ev.
  - destruct H as [a [E [L F]]]. rewrite E. cbn [bind].
    rewrite Nat.div_1_r. unfold createBuffer. rewrite Hrate.
    cbn [supported_channels Nat.leb andb negb orb].
    destruct a as [|v a'].
    + cbn. right. split; [|reflexivity].
      destruct data as [|b0 [|b1 r]]; [reflexivity | discriminate Ev |].
      exfalso. cbn [List.length] in L.
      replace (S (S (List.length r))) with (List.length r + 1 * 2)%nat in L by lia.
      rewrite Nat.div_add in L by lia. lia.
    + cbn [List.length Nat.eqb orb bind length_frames numberOfChannels sampleRate].
      repeat split; try exact L.
      intros ->. discriminate L.
  - rewrite H. cbn [bind]. left. split; reflexivity.
Qed.

Lemma decodeAudioData_accepts_whole_frames_witness :
  supported_rate 24000 = true
  /\ decodeAudioData ["001"; "002"; "003"]%byte 24000 1 = Throw RangeError.
Proof.
  split; [reflexivity|].
  pose proof (decodeAudioData_accepts_whole_frames ["001"; "002"; "003"]%byte 24000
                eq_refl) as H.
  destruct (decodeAudioData ["001"; "002"; "003"]%byte 24000 1) as [buffer|e].
  - destruct H as [Hev _]. discriminate Hev.
  - destruct H as [[_ ->] | [Hd _]]; [reflexivity | discriminate Hd].
Defined.

Lemma nth_int16 (a : Int16Array) (i : nat) : Forall is_int16 a -> is_int16 (nth i a 0).
Proof.
  intros H. destruct (nth_in_or_default i a 0) as [Hin | ->].
  - rewrite Forall_forall in H. now apply H.
  - unfold is_int16. lia.
Qed.

Lemma int16_sample_in_range (v : Z) : is_int16 v -> in_range (v # 32768).
Proof.
  unfold is_int16, in_range, Qle, Qlt. simpl. lia.
Qed.

(** Whatever bytes and channel count [decodeAudioData] accepts, the buffer has
    that many channels, every channel holds as many samples as the buffer has
    frames, and every sample is at least -1 and below +1. *)
Theorem decoded_buffer_is_well_formed
        (data : Uint8Array) (rate : Z) (numChannels : nat) (buffer : AudioBuffer) :
  decodeAudioData data rate numChannels = Ok buffer ->
  numChannels <> 0%nat
  /\ length_frames buffer = (List.length data / 2 / numChannels)%nat
  /\ length_frames buffer <> 0%nat
  /\ List.length (channels buffer) = numChannels
  /\ Forall (fun channelData =>
               List.length channelData = length_frames buffer
               /\ Forall in_range channelData)
            (channels buffer).
Proof.
  unfold decodeAudioData.
  pose proof (int16_of_bytes_cases data) as H.
  destruct (Nat.even (List.length data)).
  - destruct H as [a [E [L F]]]. rewrite E. cbn [bind]. unfold createBuffer.
    destruct (supported_channels numChannels) eqn:Hch; [|discriminate].
    destruct (Nat.eqb_spec (List.length a / numChannels) 0) as [Hf | Hf];
      [discriminate|].
    destruct (supported_rate rate); [|discriminate].
    cbn [negb orb bind]. intros Hb. inversion Hb; subst buffer; clear Hb.
    cbn [length_frames channels].
    assert (Hn : numChannels <> 0%nat) by (intros ->; discriminate Hch).
    split; [exact Hn|]. split; [now rewrite L|]. split; [exact Hf|].
    split; [now rewrite length_map, length_seq|].
    apply Forall_forall. intros channelData Hc.
    apply in_map_iff in Hc. destruct Hc as [channel [<- _]].
    split; [now rewrite length_map, length_seq|].
    apply Forall_forall. intros x Hx.
    apply in_map_iff in Hx. destruct Hx as [i [<- _]].
    apply int16_sample_in_range. now apply nth_int16.
  - rewrite H. discriminate.
Qed.

Lemma decoded_buffer_is_well_formed_witness :
  exists buffer,
    decodeAudioData (bytes_of_int16 [1; -2; 3; -4]) 24000 2 = Ok buffer
    /\ length_frames buffer = 2%nat
    /\ List.length (channels buffer) = 2%nat.
Proof.
  eexists. split; [reflexivity|].
  pose proof (decoded_buffer_is_well_formed (bytes_of_int16 [1; -2; 3; -4]) 24000 2 _
                eq_refl) as [_ [Hf [_ [Hc _]]]].
  split; [exact Hf | exact Hc].
Defined.

Lemma byte_of_val_val (b : byte) : byte_of_val (byte_val b) = b.
Proof.
  unfold byte_of_val, byte_val, chr.
  pose proof (Byte.to_N_bounded b) as Hb.
  rewrite Z.mod_small by lia. rewrite N2Z.id.
  rewrite <- ascii_of_byte_via_N. apply byte_of_ascii_of_byte.
Qed.

Lemma bytes_int16 (data : Uint8Array) (a : Int16Array) :
  int16_of_bytes data = Ok a -> bytes_of_int16 a = data.
Proof.
  revert a. induction data as [| lo | lo hi r IH] using list_ind2; intros a.
  - intros H. now inversion H.
  - discriminate.
  - cbn [int16_of_bytes]. destruct (int16_of_bytes r) as [a'|e]; [|discriminate].
    cbn [bind]. intros H. injection H as <-.
    pose proof (byte_val_range lo) as Hlo. pose proof (byte_val_range hi) as Hhi.
    set (u := byte_val lo + 256 * byte_val hi).
    set (v := if 32768 <=? u then u - 65536 else u).
    change (bytes_of_int16 (v :: a') = lo :: hi :: r).
    change (bytes_of_int16 (v :: a'))
      with ([byte_of_val ((v mod 65536) mod 256); byte_of_val (v mod 65536 / 256)]
              ++ bytes_of_int16 a').
    rewrite (IH a' eq_refl).
    assert (Hu : v mod 65536 = u).
    { unfold v. destruct (Z.leb_spec 32768 u); unfold u in *;
        Z.to_euclidean_division_equations; lia. }
    rewrite Hu.
    replace (u mod 256) with (byte_val lo)
      by (unfold u; Z.to_euclidean_division_equations; lia).
    replace (u / 256) with (byte_val hi)
      by (unfold u; Z.to_euclidean_division_equations; lia).
    now rewrite !byte_of_val_val.
Qed.

Lemma store_of_decoded_sample (v : Z) : is_int16 v -> ToInt16 ((v # 32768) * 32768) = v.
Proof.
  intros Hv.
  assert (Ht : trunc ((v # 32768) * 32768) = v).
  { unfold trunc. cbn. rewrite Z.quot_mul; lia. }
  rewrite ToInt16_exact; rewrite Ht; [reflexivity | exact Hv].
Qed.

(** Decoding an inbound chunk and storing its samples the way a captured frame
    is stored loses nothing: the samples of a one-channel buffer, sent through
    the capture encoder, give back the text of the very bytes decoded. *)
Theorem decoded_audio_reencodes_exactly
        (data : Uint8Array) (rate : Z) (buffer : AudioBuffer) :
  decodeAudioData data rate 1 = Ok buffer ->
  exists samples,
    channels buffer = [samples]
    /\ blob_data (pcmBlob samples) = encode data.
Proof.
  unfold decodeAudioData.
  destruct (int16_of_bytes data) as [a|e] eqn:E; [|discriminate].
  cbn [bind]. pose proof (int16_of_bytes_cases data) as H.
  destruct (Nat.even (List.length data)); [|congruence].
  destruct H as [a' [E' [_ F]]]. assert (a' = a) by congruence. subst a'.
  rewrite Nat.div_1_r.
  destruct (createBuffer 1 (List.length a) rate); [|discriminate].
  cbn [bind]. intros Hb. injection Hb as <-.
  cbn [channels]. change (seq 0 1) with [0%nat]. cbn [map].
  eexists. split; [reflexivity|].
  pose proof (map_nth_seq (fun v => v # 32768) 0 [] a) as Hm.
  cbn [app List.length] in Hm. rewrite Hm. clear Hm.
  unfold pcmBlob. cbn [blob_data]. f_equal.
  rewrite <- (bytes_int16 data a E). f_equal.
  unfold pcm16. rewrite map_map. rewrite <- (map_id a) at 2.
  apply map_ext_in. intros v Hv. apply store_of_decoded_sample.
  rewrite Forall_forall in F. now apply F.
Qed.

Lemma decoded_audio_reencodes_exactly_witness :
  exists buffer samples,
    decodeAudioData (bytes_of_int16 [32767; -32768; 5]) 24000 1 = Ok buffer
    /\ channels buffer = [samples]
    /\ blob_data (pcmBlob samples) = encode (bytes_of_int16 [32767; -32768; 5]).
Proof.
  eexists.
  destruct (decoded_audio_reencodes_exactly (bytes_of_int16 [32767; -32768; 5]) 24000 _
              eq_refl) as [samples [Hc Hb]].
  exists samples. split; [reflexivity | split; [exact Hc | exact Hb]].
Defined.

(** ** More on the playback scheduler *)

Lemma transcript_steps_rest (env : Env) (message : LiveServerMessage) (s : App) :
  let s1 := exec (accumulate_transcription message) s in
  let s2 := if sc_flag turnComplete message then exec (flush_turn env) s1 else s1 in
  rest_view s2 = rest_view s.
Proof.
  cbv zeta. unfold accumulate_transcription, flush_turn.
  destruct (sc_flag turnComplete message);
    destruct (sc_field outputTranscription message) as [t|];
    try destruct (sc_field inputTranscription message) as [t'|];
    unfold_monad; unfold exec; cbn;
    try (match goal with |- context [truthy ?x] => destruct (truthy x) end);
    reflexivity.
Qed.

Lemma Math_max_late (w t : Q) : (t <= w)%Q -> Math_max w t = w.
Proof.
  intros H. unfold Math_max, Qmax, GenericMinMax.gmax.
  destruct (w ?= t)%Q eqn:E; try reflexivity.
  apply Qlt_alt in E. exfalso. apply (Qlt_irrefl w).
  eapply Qlt_le_trans; eassumption.
Qed.

Lemma schedule_audio_eq (env : Env) (base64 : string) (s : App) :
  let clamped := Math_max (nextStartTimeRef s) (currentTime env) in
  let n := allocated s in
  schedule_audio env base64 s
  = (Ok tt,
     match (let* bytes := decode base64 in decodeAudioData bytes 24000 1) with
     | Ok audioBuffer =>
         set_nextStartTimeRef (clamped + duration audioBuffer)%Q
           (set_audioOut
              (audioOut s ++ [mkStartCall n clamped (duration audioBuffer)
                                (currentTime env)])
              (set_activeSourcesRef
                 (map (mark_started n)
                      (set_add (mkSource n audioBuffer false) (activeSourcesRef s)))
                 (set_allocated (S n)
                    (set_nextStartTimeRef clamped (set_isSpeaking true s)))))
     | Throw _ =>
         set_console (console s ++ [(LogError, "Audio playback error:"%string)])
           (set_nextStartTimeRef clamped (set_isSpeaking true s))
     end).
Proof.
  cbv zeta. unfold schedule_audio, createBufferSource, source_start, console_error.
  unfold_monad.
  destruct (let* bytes := decode base64 in decodeAudioData bytes 24000 1);
    reflexivity.
Qed.

Lemma onmessage_result (env : Env) (message : LiveServerMessage) (s : App) :
  result (onmessage env message) s = Ok tt.
Proof.
  unfold result. now rewrite onmessage_steps.
Qed.

Lemma onmessage_uninterrupted (env : Env) (message : LiveServerMessage) (s : App) :
  sc_flag interrupted message = false ->
  exists s2,
    rest_view s2 = rest_view s
    /\ exec (onmessage env message) s = exec (play_audio env message) s2.
Proof.
  intros Hint. rewrite onmessage_exec. cbv zeta. rewrite Hint.
  eexists. split; [|reflexivity]. apply transcript_steps_rest.
Qed.

Ltac rest_fields H :=
  unfold rest_view in H; injection H as ? ? ? ? ? ? ? ? ? ? ? ? ? ? ? ? ?.

(** A chunk that cannot be decoded (text that is no base64, an odd number of
    bytes, no bytes) is logged and skipped: nothing is started and nothing
    joins the active set; yet the watermark is clamped to the clock and
    [isSpeaking] is switched on. *)
Theorem undecodable_chunk_is_logged_and_skipped
        (env : Env) (message : LiveServerMessage) (s : App)
        (base64 : string) (e : JsError) :
  base64Audio message = Some base64 ->
  truthy base64 = true ->
  outputAudioContextRef s <> None ->
  (let* bytes := decode base64 in decodeAudioData bytes 24000 1) = Throw e ->
  sc_flag interrupted message = false ->
  let s' := exec (onmessage env message) s in
  result (onmessage env message) s = Ok tt
  /\ audioOut s' = audioOut s
  /\ activeSourcesRef s' = activeSourcesRef s
  /\ nextStartTimeRef s' = Math_max (nextStartTimeRef s) (currentTime env)
  /\ isSpeaking s' = true
  /\ console s' = console s ++ [(LogError, "Audio playback error:"%string)].
Proof.
  intros Hb Ht Hctx Hdec Hint. cbv zeta.
  split; [apply onmessage_result|].
  destruct (onmessage_uninterrupted env message s Hint) as [s2 [Hrest ->]].
  rest_fields Hrest.
  unfold exec. rewrite play_audio_eq, Hb.
  destruct (outputAudioContextRef s2) as [ctx|] eqn:E2; [|congruence].
  rewrite Ht, schedule_audio_eq. cbv zeta. rewrite Hdec. cbn.
  repeat split; congruence.
Qed.

Lemma undecodable_chunk_is_logged_and_skipped_witness :
  let s' := exec (onmessage (sample_env 9) (audio_message "AAAA")) connected in
  audioOut s' = audioOut connected
  /\ activeSourcesRef s' = activeSourcesRef connected
  /\ isSpeaking s' = true
  /\ console s' = console connected ++ [(LogError, "Audio playback error:"%string)].
Proof.
  intros s'.
  assert (Hctx : outputAudioContextRef connected <> None) by discriminate.
  assert (Hdec : (let* bytes := decode "AAAA" in decodeAudioData bytes 24000 1)
                 = Throw RangeError) by (vm_compute; reflexivity).
  pose proof (undecodable_chunk_is_logged_and_skipped (sample_env 9)
                (audio_message "AAAA") connected "AAAA" RangeError
                eq_refl eq_refl Hctx Hdec eq_refl) as [_ [H1 [H2 [_ [H4 H5]]]]].
  split; [exact H1 | split; [exact H2 | split; [exact H4 | exact H5]]].
Defined.

Lemma onmessage_step_exact (env : Env) (message : LiveServerMessage) (s : App) :
  sc_flag interrupted message = false ->
  let s' := exec (onmessage env message) s in
  let clamped := Math_max (nextStartTimeRef s) (currentTime env) in
  (audioOut s' = audioOut s
   /\ (nextStartTimeRef s' = nextStartTimeRef s \/ nextStartTimeRef s' = clamped))
  \/ exists c,
       audioOut s' = audioOut s ++ [c]
       /\ sc_when c = clamped
       /\ (0 <= sc_duration c)%Q
       /\ nextStartTimeRef s' = unit_end c.
Proof.
  intros Hint. cbv zeta.
  destruct (onmessage_uninterrupted env message s Hint) as [s2 [Hrest ->]].
  rest_fields Hrest.
  destruct (play_audio_fields env message s2) as [_ [_ [_ Ka]]].
  destruct Ka as [[Ka Kw] | [c [Ka [K1 [_ [K3 K4]]]]]].
  - left. split; [congruence|]. destruct Kw as [Kw | Kw]; [left | right]; congruence.
  - right. exists c. repeat split; congruence.
Qed.

Lemma unit_end_after (c : StartCall) : (0 <= sc_duration c)%Q -> (sc_when c <= unit_end c)%Q.
Proof.
  unfold unit_end. intros H.
  rewrite <- (Qplus_0_r (sc_when c)) at 1.
  apply Qplus_le_r. exact H.
Qed.

Lemma on_time_weaken (w w' : Q) (ms : list (Env * LiveServerMessage)) :
  (w <= w')%Q ->
  Forall (fun em => (currentTime (fst em) <= w)%Q) ms ->
  Forall (fun em => (currentTime (fst em) <= w')%Q) ms.
Proof.
  intros Hw H. eapply Forall_impl; [|exact H].
  intros em Hem. cbv beta in *. eapply Qle_trans; eassumption.
Qed.

(** Chunks that all arrive while the clock is still behind the watermark are
    played without any gap: with no interruption in between, the first unit
    starts exactly at the watermark, every further unit exactly at the end of
    the unit before it, and the watermark ends at the end of the last one. *)
Theorem burst_is_gapless (ms : list (Env * LiveServerMessage)) (s : App) :
  no_interruption ms ->
  Forall (fun em => (currentTime (fst em) <= nextStartTimeRef s)%Q) ms ->
  exists units,
    audioOut (run_messages ms s) = audioOut s ++ units
    /\ abutting (nextStartTimeRef s) units
    /\ nextStartTimeRef (run_messages ms s) = chain_end (nextStartTimeRef s) units.
Proof.
  intros Hint. revert s. induction Hint as [|em ms Hem _ IH]; intros s Hclock.
  - exists []. simpl. rewrite app_nil_r. repeat split.
  - rewrite run_messages_cons.
    inversion_clear Hclock as [|? ? Hnow Hlater].
    pose proof (onmessage_step_exact (fst em) (snd em) s Hem) as Hstep.
    cbv zeta in Hstep.
    rewrite (Math_max_late _ _ Hnow) in Hstep.
    set (s' := exec (onmessage (fst em) (snd em)) s) in *.
    destruct Hstep as [[Ha Hw] | [c [Ha [H1 [H3 H4]]]]].
    + assert (Hw' : nextStartTimeRef s' = nextStartTimeRef s) by (destruct Hw; assumption).
      destruct (IH s') as [units [Hout [Hab Hend]]].
      { now rewrite Hw'. }
      exists units. rewrite Hout, Ha, Hend. rewrite Hw' in *. repeat split; assumption.
    + destruct (IH s') as [units [Hout [Hab Hend]]].
      { apply (on_time_weaken (nextStartTimeRef s)); [|exact Hlater].
        rewrite H4, <- H1. now apply unit_end_after. }
      exists (c :: units). rewrite Hout, Ha, <- app_assoc, Hend, H4.
      split; [reflexivity|]. split; [|reflexivity].
      simpl. repeat split; try assumption. now rewrite <- H4.
Qed.

Lemma burst_is_gapless_witness :
  let ms := [(sample_env 1, audio_message "AIAAgABAVtU=");
             (sample_env 2, audio_message "AAAA");
             (sample_env 3, audio_message "AIA")] in
  exists units,
    audioOut (run_messages ms playing) = audioOut playing ++ units
    /\ abutting (nextStartTimeRef playing) units
    /\ nextStartTimeRef (run_messages ms playing)
       = chain_end (nextStartTimeRef playing) units.
Proof.
  intros ms. apply (burst_is_gapless ms playing).
  - repeat constructor.
  - repeat constructor; unfold Qle; simpl; lia.
Defined.

(** A message starts at most one unit and creates at most one source node,
    however many audio parts it carries. *)
Theorem at_most_one_unit_per_message
        (env : Env) (message : LiveServerMessage) (s : App) :
  let s' := exec (onmessage env message) s in
  (List.length (audioOut s') <= List.length (audioOut s) + 1)%nat
  /\ (allocated s <= allocated s' <= allocated s + 1)%nat.
Proof.
  cbv zeta. split.
  - destruct (onmessage_schedule env message s) as [[[Ha _] | [c [Ha _]]] _];
      rewrite Ha; [lia | rewrite length_app; simpl; lia].
  - rewrite onmessage_exec. cbv zeta.
    pose proof (transcript_steps_rest env message s) as Hrest. cbv zeta in Hrest.
    set (s2 := if sc_flag turnComplete message
               then exec (flush_turn env) (exec (accumulate_transcription message) s)
               else exec (accumulate_transcription message) s) in *.
    rest_fields Hrest.
    assert (K3 : (allocated s2 <= allocated (exec (play_audio env message) s2)
                  <= allocated s2 + 1)%nat).
    { unfold exec. rewrite play_audio_eq.
      destruct (base64Audio message) as [base64|]; [|cbn; lia].
      destruct (outputAudioContextRef s2); [|cbn; lia].
      destruct (truthy base64); [|cbn; lia].
      rewrite schedule_audio_eq. cbv zeta.
      destruct (let* bytes := decode base64 in decodeAudioData bytes 24000 1);
        cbn; lia. }
    assert (K4 : allocated (exec stopAllAudio (exec (play_audio env message) s2))
                 = allocated (exec (play_audio env message) s2)).
    { unfold exec at 1. now rewrite stopAllAudio_eq. }
    destruct (sc_flag interrupted message); rewrite ?K4; lia.
Qed.

(** [stopAllAudio] calls [stop] once on every started unit of the active set,
    in the order of the set, and swallows the error of a unit that never
    started; run again right away it changes nothing. *)
Theorem stopAllAudio_is_idempotent (s : App) :
  let s1 := exec stopAllAudio s in
  audioStops s1 = audioStops s ++ map node_id (filter node_started (activeSourcesRef s))
  /\ stopAllAudio s1 = (Ok tt, s1).
Proof.
  cbv zeta. unfold exec. rewrite !stopAllAudio_eq. cbn.
  split; [reflexivity|]. now rewrite app_nil_r.
Qed.

(** ** The playback state over the life of the component *)

Lemma well_formed_same (s s' : App) :
  playback_view s' = playback_view s -> (allocated s <= allocated s')%nat ->
  well_formed s -> well_formed s'.
Proof.
  unfold playback_view, well_formed.
  intros Hv Ha [Hw [Hs [Hn [Hsp Ho]]]]. injection Hv as -> -> -> ->.
  repeat split; try assumption.
  eapply Forall_impl; [|exact Hs]. cbv beta. intros n [H1 H2]. split; [exact H1 | lia].
Qed.

Lemma well_formed_stopped (s s' : App) :
  nextStartTimeRef s' = 0%Q -> activeSourcesRef s' = [] -> audioOut s' = audioOut s ->
  well_formed s -> well_formed s'.
Proof.
  unfold well_formed. intros -> -> -> [_ [_ [_ [_ Ho]]]].
  repeat split; try assumption; try constructor.
  - apply Qle_refl.
  - intros H. now elim H.
Qed.

Lemma handleSendText_playback (env : Env) (s : App) :
  playback_view (exec (handleSendText env) s) = playback_view s
  /\ allocated (exec (handleSendText env) s) = allocated s.
Proof.
  unfold exec, handleSendText, sendRealtimeInput, console_error. unfold_monad.
  destruct (negb (truthy (trim (inputText s))) || is_null (sessionRef s)
            || negb (status_eqb (status s) CONNECTED)); [split; reflexivity|].
  destruct (sessionRef s); [|split; reflexivity].
  destruct (send_throws env); split; reflexivity.
Qed.

Lemma handleStartSession_begin_playback (env : Env) (s : App) :
  let s' := exec (handleStartSession_begin env) s in
  nextStartTimeRef s' = 0%Q /\ activeSourcesRef s' = []
  /\ audioOut s' = audioOut s /\ isSpeaking s' = false.
Proof.
  unfold exec, handleStartSession_begin, start_failed, session_close,
    processor_disconnect, console_error.
  destruct (sessionRef s) as [current|] eqn:Es;
    destruct (close_throws env);
    destruct (scriptProcessorRef s) as [p|] eqn:Ep;
    destruct (audioContextRef s) as [input|] eqn:Ei;
    destruct (outputAudioContextRef s) as [output|] eqn:Eo;
    run_handler; rewrite ?Es, ?Ep, ?Ei, ?Eo; run_handler;
    rewrite ?Es, ?Ep, ?Ei, ?Eo; run_handler;
    rewrite ?Es, ?Ep, ?Ei, ?Eo; run_handler;
    rewrite ?Es, ?Ep, ?Ei, ?Eo; run_handler; repeat split; reflexivity.
Qed.

Lemma handleStartSession_resume_playback (env : Env) (awaited : Awaited) (s : App) :
  let s' := exec (handleStartSession_resume env awaited) s in
  playback_view s' = playback_view s /\ (allocated s <= allocated s')%nat.
Proof.
  unfold exec, handleStartSession_resume, start_failed, sendRealtimeInput,
    console_error.
  destruct awaited as [session|e]; [|run_handler; split; [reflexivity | lia]].
  destruct (audioContextRef s) as [input|] eqn:Ei;
    destruct (send_throws env);
    run_handler; rewrite ?Ei; run_handler; split; solve [reflexivity | lia].
Qed.

Lemma handleStopSession_playback (env : Env) (s : App) :
  audioOut (exec (handleStopSession env) s) = audioOut s.
Proof.
  unfold exec, handleStopSession, session_close, processor_disconnect.
  destruct (sessionRef s) as [current|] eqn:Es;
    destruct (close_throws env);
    destruct (scriptProcessorRef s) as [p|] eqn:Ep;
    run_handler; rewrite ?Es, ?Ep; run_handler; rewrite ?Ep; run_handler;
    reflexivity.
Qed.

Lemma callbacks_playback (s : App) :
  playback_view (exec onopen s) = playback_view s
  /\ playback_view (exec onerror s) = playback_view s
  /\ (nextStartTimeRef (exec onclose s) = 0%Q
      /\ activeSourcesRef (exec onclose s) = []
      /\ audioOut (exec onclose s) = audioOut s).
Proof.
  unfold exec, onopen, onerror, onclose, console_log, console_error.
  repeat split; run_handler; reflexivity.
Qed.

Lemma distinct_after_delete (source : nat) (active : list AudioBufferSourceNode) :
  NoDup (map node_id active) -> NoDup (map node_id (set_delete source active)).
Proof.
  unfold set_delete. intros Hdistinct.
  induction active as [|x r IH]; cbn [filter map]; [constructor|].
  cbn [map] in Hdistinct. apply NoDup_cons_iff in Hdistinct.
  destruct Hdistinct as [Hx Hr].
  destruct (negb (node_id x =? source)%nat); [|now apply IH].
  cbn [map]. apply NoDup_cons; [|now apply IH].
  intros Hin. apply Hx. apply in_map_iff in Hin. destruct Hin as [y [E Hy]].
  apply in_map_iff. exists y. apply filter_In in Hy. tauto.
Qed.

Lemma NoDup_snoc {A : Type} (l : list A) (x : A) :
  NoDup l -> ~ In x l -> NoDup (l ++ [x]).
Proof.
  induction l as [|y r IH]; simpl; intros Hl Hx.
  - constructor; [intros [] | constructor].
  - inversion_clear Hl as [|? ? Hy Hr]. constructor.
    + intros Hin. apply in_app_or in Hin. destruct Hin as [Hin | [E | []]]; [tauto|].
      apply Hx. now left.
    + apply IH; [exact Hr|]. intros Hin. apply Hx. now right.
Qed.

Lemma onended_eq (source : nat) (s : App) :
  onended source s
  = (Ok tt,
     let s1 := set_activeSourcesRef (set_delete source (activeSourcesRef s)) s in
     if (List.length (set_delete source (activeSourcesRef s)) =? 0)%nat
     then set_isSpeaking false s1 else s1).
Proof.
  unfold onended. unfold_monad. cbn.
  destruct (List.length (set_delete source (activeSourcesRef s)) =? 0)%nat; reflexivity.
Qed.

Lemma onended_well_formed (source : nat) (s : App) :
  well_formed s -> well_formed (exec (onended source) s).
Proof.
  unfold well_formed. intros [Hw [Hs [Hn [Hsp Ho]]]].
  unfold exec. rewrite onended_eq. cbv zeta.
  assert (Hs' : Forall (fun n => node_started n = true /\ (node_id n < allocated s)%nat)
                       (set_delete source (activeSourcesRef s))).
  { apply Forall_forall. intros n Hin. apply filter_In in Hin.
    rewrite Forall_forall in Hs. now apply Hs. }
  assert (Hn' : NoDup (map node_id (set_delete source (activeSourcesRef s))))
    by (now apply distinct_after_delete).
  destruct (set_delete source (activeSourcesRef s)) as [|x r] eqn:E; cbn.
  - repeat split; try assumption. intros H. now elim H.
  - repeat split; try assumption. intros _. apply Hsp.
    intros Hnil. unfold set_delete in E. rewrite Hnil in E. discriminate.
Qed.

(** A fresh node joins the active set at its end and is the one that starts. *)
Lemma joined_active_set (n : nat) (audioBuffer : AudioBuffer)
      (active : list AudioBufferSourceNode) :
  Forall (fun x => (node_id x < n)%nat) active ->
  map (mark_started n) (set_add (mkSource n audioBuffer false) active)
  = active ++ [mkSource n audioBuffer true].
Proof.
  intros H. unfold set_add.
  assert (Hex : existsb (same_node (mkSource n audioBuffer false)) active = false).
  { induction H as [|x r Hx _ IH]; simpl; [reflexivity|].
    rewrite IH. unfold same_node. cbn.
    destruct (Nat.eqb_spec n (node_id x)); [lia | reflexivity]. }
  rewrite Hex, map_app. cbn [map]. f_equal.
  - rewrite <- (map_id active) at 2. apply map_ext_in. intros x Hx.
    rewrite Forall_forall in H. specialize (H x Hx).
    unfold mark_started. destruct (Nat.eqb_spec (node_id x) n); [lia | reflexivity].
  - unfold mark_started. cbn. now rewrite Nat.eqb_refl.
Qed.

Lemma schedule_audio_well_formed (env : Env) (base64 : string) (s : App) :
  well_formed s -> well_formed (exec (schedule_audio env base64) s).
Proof.
  unfold well_formed. intros [Hw [Hs [Hn [Hsp Ho]]]].
  unfold exec. rewrite schedule_audio_eq. cbv zeta.
  assert (Hc : (0 <= Math_max (nextStartTimeRef s) (currentTime env))%Q).
  { eapply Qle_trans; [exact Hw | apply Q.le_max_l]. }
  destruct (let* bytes := decode base64 in decodeAudioData bytes 24000 1)
    as [audioBuffer|e]; cbn.
  - rewrite joined_active_set.
    2:{ eapply Forall_impl; [|exact Hs]. cbv beta. tauto. }
    assert (Hd : (0 <= duration audioBuffer)%Q) by (unfold duration, Qle; cbn; lia).
    repeat split.
    + rewrite <- (Qplus_0_r 0). now apply Qplus_le_compat.
    + apply Forall_app. split.
      * eapply Forall_impl; [|exact Hs]. cbv beta. intros x [H1 H2]. split; [exact H1 | lia].
      * repeat constructor; cbn; lia.
    + rewrite map_app. cbn [map node_id]. apply NoDup_snoc; [exact Hn|].
      intros Hin. apply in_map_iff in Hin. destruct Hin as [x [E Hx]].
      rewrite Forall_forall in Hs. destruct (Hs x Hx) as [_ Hlt]. lia.
    + apply Forall_app. split.
      * exact Ho.
      * constructor; [exact Hc | constructor].
  - repeat split; assumption.
Qed.

Lemma well_formed_rest (s s' : App) :
  rest_view s' = rest_view s -> well_formed s -> well_formed s'.
Proof.
  intros Hrest. rest_fields Hrest.
  apply well_formed_same; [unfold playback_view; congruence | lia].
Qed.

Lemma onmessage_well_formed (env : Env) (message : LiveServerMessage) (s : App) :
  well_formed s -> well_formed (exec (onmessage env message) s).
Proof.
  intros Hwf. rewrite onmessage_exec. cbv zeta.
  pose proof (transcript_steps_rest env message s) as Hrest. cbv zeta in Hrest.
  set (s2 := if sc_flag turnComplete message
             then exec (flush_turn env) (exec (accumulate_transcription message) s)
             else exec (accumulate_transcription message) s) in *.
  assert (H2 : well_formed s2) by (now apply (well_formed_rest s)).
  assert (H3 : well_formed (exec (play_audio env message) s2)).
  { unfold exec. rewrite play_audio_eq.
    destruct (base64Audio message) as [base64|]; [|exact H2].
    destruct (outputAudioContextRef s2); [|exact H2].
    destruct (truthy base64); [|exact H2].
    now apply schedule_audio_well_formed. }
  destruct (sc_flag interrupted message); [|exact H3].
  destruct (stopAllAudio_fields (exec (play_audio env message) s2))
    as [_ [Sw [Sa [So _]]]].
  exact (well_formed_stopped _ _ Sw Sa So H3).
Qed.

Lemma handle_well_formed (env : Env) (ev : Event) (s : App) :
  well_formed s -> well_formed (exec (handle env ev) s).
Proof.
  intros Hwf.
  destruct ev as [| t | | | awaited | | | message | | | source | p inputData];
    cbn [handle].
  - destruct (handleSendText_playback env s) as [Hv Ha].
    apply (well_formed_same s); [exact Hv | lia | exact Hwf].
  - apply (well_formed_same s); [reflexivity | cbn; lia | exact Hwf].
  - apply (well_formed_same s); [reflexivity | cbn; lia | exact Hwf].
  - destruct (handleStartSession_begin_playback env s) as [Hw [Ha [Ho _]]].
    exact (well_formed_stopped _ _ Hw Ha Ho Hwf).
  - destruct (handleStartSession_resume_playback env awaited s) as [Hv Ha].
    exact (well_formed_same _ _ Hv Ha Hwf).
  - destruct (handleStopSession_fields env s) as [_ [_ [_ [_ [_ [_ [Ha [Hw _]]]]]]]].
    exact (well_formed_stopped _ _ Hw Ha (handleStopSession_playback env s) Hwf).
  - destruct (callbacks_playback s) as [Hv _].
    apply (well_formed_same s); [exact Hv | cbn; lia | exact Hwf].
  - now apply onmessage_well_formed.
  - destruct (callbacks_playback s) as [_ [Hv _]].
    apply (well_formed_same s); [exact Hv | cbn; lia | exact Hwf].
  - destruct (callbacks_playback s) as [_ [_ [Hw [Ha Ho]]]].
    exact (well_formed_stopped _ _ Hw Ha Ho Hwf).
  - now apply onended_well_formed.
  - unfold exec. rewrite onaudioprocess_eq.
    destruct (send_throws env); [exact Hwf|].
    apply (well_formed_same s); [reflexivity | cbn; lia | exact Hwf].
Qed.

Lemma run_snoc (evs : list (Env * Event)) (ev : Env * Event) (s : App) :
  run (evs ++ [ev]) s = exec (handle (fst ev) (snd ev)) (run evs s).
Proof.
  unfold run. now rewrite fold_left_app.
Qed.

Lemma run_well_formed (evs : list (Env * Event)) : well_formed (run evs initialApp).
Proof.
  induction evs as [|ev evs IH] using rev_ind.
  - unfold well_formed. cbn. repeat split; try constructor.
    + apply Qle_refl.
    + intros H. now elim H.
  - rewrite run_snoc. now apply handle_well_formed.
Qed.



Lemma snoc_not_self {A : Type} (l : list A) (x : A) : l ++ [x] <> l.
Proof.
  intros H. apply (f_equal (@List.length A)) in H.
  rewrite length_app in H. simpl in H. lia.
Qed.

Lemma set_delete_last (n : nat) (audioBuffer : AudioBuffer) (started : bool)
      (active : list AudioBufferSourceNode) :
  Forall (fun x => (node_id x < n)%nat) active ->
  set_delete n (active ++ [mkSource n audioBuffer started]) = active.
Proof.
  intros H. unfold set_delete. rewrite filter_app. cbn.
  rewrite Nat.eqb_refl. cbn. rewrite app_nil_r.
  apply filter_all. eapply Forall_impl; [|exact H]. cbv beta. intros x Hx.
  destruct (Nat.eqb_spec (node_id x) n); [lia | reflexivity].
Qed.

Lemma onended_last (n : nat) (audioBuffer : AudioBuffer) (s1 : App)
      (active : list AudioBufferSourceNode) :
  activeSourcesRef s1 = active ++ [mkSource n audioBuffer true] ->
  Forall (fun x => (node_id x < n)%nat) active ->
  activeSourcesRef (exec (onended n) s1) = active
  /\ isSpeaking (exec (onended n) s1) = if is_empty active then false else isSpeaking s1.
Proof.
  intros Ha Hid. unfold exec. rewrite onended_eq. cbv zeta.
  rewrite Ha, (set_delete_last _ _ _ _ Hid).
  destruct active; cbn; split; reflexivity.
Qed.

(** A unit that plays to its end leaves the active set as it was before the
    unit was scheduled: the chunk's node joins the set when it starts, its
    [onended] callback removes it again, and [isSpeaking] goes off exactly
    when no other unit is left. *)
Theorem finished_unit_leaves_the_active_set
        (env : Env) (message : LiveServerMessage) (s : App) (c : StartCall) :
  well_formed s ->
  sc_flag interrupted message = false ->
  audioOut (exec (onmessage env message) s) = audioOut s ++ [c] ->
  let s1 := exec (onmessage env message) s in
  let s2 := exec (onended (sc_source c)) s1 in
  List.length (activeSourcesRef s1) = S (List.length (activeSourcesRef s))
  /\ isSpeaking s1 = true
  /\ activeSourcesRef s2 = activeSourcesRef s
  /\ isSpeaking s2 = negb (is_empty (activeSourcesRef s)).
Proof.
  intros Hwf Hint. cbv zeta.
  destruct (onmessage_uninterrupted env message s Hint) as [s0 [Hrest ->]].
  assert (Hwf0 : well_formed s0) by (now apply (well_formed_rest s)).
  rest_fields Hrest.
  remember (exec (play_audio env message) s0) as s1 eqn:E1.
  unfold exec in E1. rewrite play_audio_eq in E1.
  assert (Hskip : s1 = s0 -> audioOut s1 = audioOut s ++ [c] -> False).
  { intros -> E. apply (snoc_not_self (audioOut s) c). congruence. }
  destruct (base64Audio message) as [base64|]; [|intros E; now elim Hskip].
  destruct (outputAudioContextRef s0); [|intros E; now elim Hskip].
  destruct (truthy base64); [|intros E; now elim Hskip].
  rewrite schedule_audio_eq in E1. cbv zeta in E1.
  destruct (let* bytes := decode base64 in decodeAudioData bytes 24000 1)
    as [audioBuffer|e].
  2:{ intros E. exfalso. apply (snoc_not_self (audioOut s) c).
      rewrite <- E, E1. cbn. congruence. }
  destruct Hwf0 as [_ [Ks _]].
  assert (Kid : Forall (fun x => (node_id x < allocated s0)%nat) (activeSourcesRef s0)).
  { eapply Forall_impl; [|exact Ks]. cbv beta. tauto. }
  assert (Kact : activeSourcesRef s1
                 = activeSourcesRef s0 ++ [mkSource (allocated s0) audioBuffer true]).
  { rewrite E1. cbn [snd]. rewrite <- (joined_active_set _ _ _ Kid). reflexivity. }
  assert (Kout : audioOut s1
                 = audioOut s0 ++ [mkStartCall (allocated s0)
                                     (Math_max (nextStartTimeRef s0) (currentTime env))
                                     (duration audioBuffer) (currentTime env)])
    by (rewrite E1; reflexivity).
  assert (Ksp : isSpeaking s1 = true) by (rewrite E1; reflexivity).
  intros E.
  assert (Ec : sc_source c = allocated s0).
  { rewrite Kout in E. replace (audioOut s0) with (audioOut s) in E by congruence.
    apply app_inv_head in E. injection E as <-. reflexivity. }
  rewrite Ec.
  destruct (onended_last _ _ _ _ Kact Kid) as [Ka Ks2].
  rewrite Ka, Ks2, Kact, Ksp, length_app.
  replace (activeSourcesRef s0) with (activeSourcesRef s) by congruence.
  split; [simpl; lia|]. split; [reflexivity|]. split; [reflexivity|].
  now destruct (activeSourcesRef s).
Qed.

Lemma finished_unit_leaves_the_active_set_witness :
  let s := run [(sample_env 0, StartSession);
                (sample_env 0, Open);
                (sample_env 0, StartResumed (Resolved (mkSession 1)))]
               initialApp in
  let message := audio_message "AIA" in
  let s1 := exec (onmessage (sample_env 1) message) s in
  exists c,
    audioOut s1 = audioOut s ++ [c]
    /\ activeSourcesRef (exec (onended (sc_source c)) s1) = activeSourcesRef s
    /\ isSpeaking (exec (onended (sc_source c)) s1) = negb (is_empty (activeSourcesRef s)).
Proof.
  intros s message s1.
  pose proof (run_well_formed [(sample_env 0, StartSession);
                               (sample_env 0, Open);
                               (sample_env 0, StartResumed (Resolved (mkSession 1)))])
    as Hwf.
  fold s in Hwf.
  assert (Hc : exists c, audioOut s1 = audioOut s ++ [c])
    by (eexists; vm_compute; reflexivity).
  destruct Hc as [c Hc]. exists c. split; [exact Hc|].
  destruct (finished_unit_leaves_the_active_set (sample_env 1) message s c
              Hwf eq_refl Hc) as [_ [_ [Ha Hs]]].
  split; [exact Ha | exact Hs].
Defined.

(** ** Starting and stopping a session *)

Ltac start_cases s env :=
  let Es := fresh "Es" in
  let Ep := fresh "Ep" in
  let Ei := fresh "Ei" in
  let Eo := fresh "Eo" in
  destruct (sessionRef s) as [?current|] eqn:Es;
  destruct (close_throws env);
  destruct (scriptProcessorRef s) as [?p|] eqn:Ep;
  destruct (audioContextRef s) as [?input|] eqn:Ei;
  destruct (outputAudioContextRef s) as [?output|] eqn:Eo;
  run_handler; rewrite ?Es, ?Ep, ?Ei, ?Eo; run_handler;
  rewrite ?Es, ?Ep, ?Ei, ?Eo; run_handler;
  rewrite ?Es, ?Ep, ?Ei, ?Eo; run_handler;
  rewrite ?Es, ?Ep, ?Ei, ?Eo; run_handler.

(** The first part of [handleStartSession], from any state: it never throws;
    a stored session is closed (an error of [close] is swallowed), a stored
    capture node is disconnected and every started unit is stopped before the
    status becomes CONNECTING; nothing is sent and the log is kept; the two
    audio contexts exist afterwards, an existing one being reused; the stale
    session handle and capture node stay stored until the new ones replace
    them. *)
Theorem start_tears_down_the_previous_session (env : Env) (s : App) :
  let s' := exec (handleStartSession_begin env) s in
  result (handleStartSession_begin env) s = Ok tt
  /\ status s' = CONNECTING
  /\ (activeSourcesRef s' = [] /\ nextStartTimeRef s' = 0%Q /\ isSpeaking s' = false)
  /\ closed s'
     = closed s ++ match sessionRef s with
                   | Some current => if close_throws env then [] else [current]
                   | None => []
                   end
  /\ disconnected s'
     = disconnected s ++ match scriptProcessorRef s with
                         | Some p => [p]
                         | None => []
                         end
  /\ audioStops s'
     = audioStops s ++ map node_id (filter node_started (activeSourcesRef s))
  /\ (transport s' = transport s /\ messages s' = messages s)
  /\ (sessionRef s' = sessionRef s /\ scriptProcessorRef s' = scriptProcessorRef s)
  /\ audioContextRef s'
     = Some match audioContextRef s with
            | Some ctx => ctx
            | None => mkAudioContext 16000
            end
  /\ outputAudioContextRef s'
     = Some match outputAudioContextRef s with
            | Some ctx => ctx
            | None => mkAudioContext 24000
            end.
Proof.
  unfold exec, result, handleStartSession_begin, start_failed, session_close,
    processor_disconnect, console_error.
  start_cases s env;
    rewrite ?app_nil_r; repeat split; solve [reflexivity | assumption].
Qed.

(** The rest of [handleStartSession], entered with what the awaited calls
    gave.  It never throws.  When they failed, the error is logged, the status
    becomes ERROR and nothing else changes.  When they gave a session, it is
    stored and a capture node bound to it is installed; the greeting is the
    one thing sent, and it goes to that session; when sending it throws, the
    status becomes ERROR while the session handle and the capture node stay
    installed. *)
Theorem start_resumes_into_a_session_or_an_error
        (env : Env) (awaited : Awaited) (s : App) (ctx : AudioContext) :
  audioContextRef s = Some ctx ->
  let s' := exec (handleStartSession_resume env awaited) s in
  let failed := (LogError, "Failed to initialize Lumi:"%string) in
  result (handleStartSession_resume env awaited) s = Ok tt
  /\ match awaited with
     | Rejected _ =>
         s' = set_status ERROR (set_console (console s ++ [failed]) s)
     | Resolved session =>
         sessionRef s' = Some session
         /\ scriptProcessorRef s' = Some (mkProcessor (allocated s) session)
         /\ if send_throws env
            then status s' = ERROR /\ transport s' = transport s
                 /\ console s' = console s ++ [failed]
            else status s' = status s
                 /\ transport s' = transport s ++ [(session, TextInput greeting)]
                 /\ console s' = console s
     end.
Proof.
  intros Hctx. cbv zeta.
  unfold exec, result, handleStartSession_resume, start_failed, sendRealtimeInput,
    console_error.
  destruct awaited as [session|e].
  - destruct (send_throws env); run_handler; rewrite ?Hctx; run_handler;
      repeat split; reflexivity.
  - run_handler. split; reflexivity.
Qed.

Lemma start_resumes_into_a_session_or_an_error_witness :
  let s' := exec (handleStartSession_resume (failing_env 0) (Resolved (mkSession 7)))
                 opening in
  sessionRef s' = Some (mkSession 7) /\ status s' = ERROR /\ transport s' = [].
Proof.
  intros s'.
  pose proof (start_resumes_into_a_session_or_an_error (failing_env 0)
                (Resolved (mkSession 7)) opening (mkAudioContext 16000) eq_refl)
    as [_ [Hs [_ [Hst [Ht _]]]]].
  split; [exact Hs | split; [exact Hst | exact Ht]].
Defined.

Lemma status_after_teardown (env : Env) (s : App) :
  status (exec (handleStartSession_begin env) s) = CONNECTING
  /\ status (exec (handleStopSession env) s) = DISCONNECTED
  /\ status (exec onerror s) = ERROR
  /\ status (exec onclose s) = DISCONNECTED
  /\ forall e, status (exec (handleStartSession_resume env (Rejected e)) s) = ERROR.
Proof.
  split; [|split; [|split; [|split]]].
  - unfold exec, handleStartSession_begin, start_failed, session_close,
      processor_disconnect, console_error.
    start_cases s env; reflexivity.
  - destruct (handleStopSession_fields env s) as [_ [H _]]. exact H.
  - unfold exec, onerror, console_error. run_handler. reflexivity.
  - unfold exec, onclose, console_log. run_handler. reflexivity.
  - intros e. unfold exec, handleStartSession_resume, start_failed, console_error.
    run_handler. reflexivity.
Qed.

(** Once a session is being restarted, has been stopped, has failed or was
    closed by the other side, text is no longer sent: [handleSendText] right
    after such an event changes nothing and reaches no transport, whatever
    was typed and whatever session handle is still stored. *)
Theorem text_is_dropped_once_the_connection_ends
        (env env' : Env) (ev : Event) (s : App) :
  ends_connection ev ->
  let s' := exec (handle env ev) s in
  status s' <> CONNECTED /\ handleSendText env' s' = (Ok tt, s').
Proof.
  intros Hev. cbv zeta.
  destruct (status_after_teardown env s) as [H1 [H2 [H3 [H4 H5]]]].
  assert (Hst : status (exec (handle env ev) s) <> CONNECTED).
  { destruct Hev as [-> | [-> | [-> | [-> | [e ->]]]]]; cbn [handle];
      rewrite ?H1, ?H2, ?H3, ?H4, ?H5; discriminate. }
  split; [exact Hst|]. apply handleSendText_guard. now left.
Qed.

Lemma text_is_dropped_once_the_connection_ends_witness :
  let s' := exec (handle (sample_env 8) TransportFailed)
                 (set_inputText "still there?" connected) in
  ends_connection TransportFailed
  /\ sessionRef s' = Some (mkSession 1)
  /\ handleSendText (sample_env 9) s' = (Ok tt, s').
Proof.
  intros s'.
  assert (H : ends_connection TransportFailed) by (right; right; left; reflexivity).
  split; [exact H | split; [reflexivity|]].
  exact (proj2 (text_is_dropped_once_the_connection_ends (sample_env 8) (sample_env 9)
                  TransportFailed (set_inputText "still there?" connected) H)).
Defined.

(** A text that was sent is not sent again: the input is cleared with the
    send, so a second [handleSendText] right after it does nothing.  A text
    whose send threw is kept in the input, and the next [handleSendText]
    sends it and appends its one Message. *)
Theorem sent_text_is_sent_once (env1 env2 : Env) (s : App) (session : Session) :
  status s = CONNECTED -> sessionRef s = Some session ->
  trim (inputText s) <> EmptyString ->
  let s1 := exec (handleSendText env1) s in
  let s2 := exec (handleSendText env2) s1 in
  let textToSend := trim (inputText s) in
  if send_throws env1
  then inputText s1 = inputText s
       /\ (send_throws env2 = false ->
           messages s2 = messages s ++ [mkMessage (random_id env2) user textToSend (now env2)]
           /\ transport s2 = transport s ++ [(session, TextInput textToSend)])
  else s2 = s1
       /\ messages s2 = messages s ++ [mkMessage (random_id env1) user textToSend (now env1)]
       /\ transport s2 = transport s ++ [(session, TextInput textToSend)].
Proof.
  intros Hst Hse Htext. cbv zeta.
  assert (Es1 : exec (handleSendText env1) s
                = if send_throws env1
                  then set_console
                         (console s ++ [(LogError, "Failed to send text input:"%string)]) s
                  else set_inputText EmptyString
                         (set_messages
                            (messages s ++ [mkMessage (random_id env1) user
                                              (trim (inputText s)) (now env1)])
                            (set_transport
                               (transport s ++ [(session, TextInput (trim (inputText s)))])
                               s))).
  { unfold exec. rewrite (handleSendText_connected env1 s session Hst Hse Htext).
    now destruct (send_throws env1). }
  rewrite Es1. clear Es1.
  destruct (send_throws env1).
  - split; [reflexivity|]. intros E2.
    unfold exec. rewrite (handleSendText_connected env2 _ session); try assumption.
    rewrite E2. cbn. split; reflexivity.
  - unfold exec. rewrite handleSendText_guard by (right; right; reflexivity).
    cbn. repeat split; reflexivity.
Qed.

Lemma sent_text_is_sent_once_witness :
  let s := set_inputText " hello " connected in
  let s2 := exec (handleSendText (sample_env 3)) (exec (handleSendText (failing_env 2)) s) in
  messages s2 = messages s ++ [mkMessage "k3x9q0a7b" user "hello" 1700000000]
  /\ transport s2 = transport s ++ [(mkSession 1, TextInput "hello")].
Proof.
  intros s s2.
  assert (Ht : trim (inputText s) <> EmptyString) by discriminate.
  exact (proj2 (sent_text_is_sent_once (failing_env 2) (sample_env 3) s (mkSession 1)
                  eq_refl eq_refl Ht) eq_refl).
Defined.

(** [handleStopSession] on the outside world: the stored session is closed
    once (an error of [close] is swallowed), the stored capture node is
    disconnected once, every started unit is stopped; nothing is sent, and
    the conversation log, the typed text and the audio contexts are kept. *)
Theorem stop_releases_what_is_held (env : Env) (s : App) :
  let s' := exec (handleStopSession env) s in
  closed s'
  = closed s ++ match sessionRef s with
                | Some current => if close_throws env then [] else [current]
                | None => []
                end
  /\ disconnected s'
     = disconnected s ++ match scriptProcessorRef s with
                         | Some p => [p]
                         | None => []
                         end
  /\ audioStops s'
     = audioStops s ++ map node_id (filter node_started (activeSourcesRef s))
  /\ transport s' = transport s
  /\ (messages s' = messages s /\ inputText s' = inputText s)
  /\ (audioContextRef s' = audioContextRef s
      /\ outputAudioContextRef s' = outputAudioContextRef s).
Proof.
  unfold exec, handleStopSession, session_close, processor_disconnect.
  destruct (sessionRef s) as [current|] eqn:Es;
    destruct (close_throws env);
    destruct (scriptProcessorRef s) as [p|] eqn:Ep;
    run_handler; rewrite ?Es, ?Ep; run_handler; rewrite ?Ep; run_handler;
    rewrite ?app_nil_r; repeat split; reflexivity.
Qed.

Lemma handleSendText_messages (env : Env) (s : App) :
  exists added,
    messages (exec (handleSendText env) s) = messages s ++ added
    /\ (List.length added <= 1)%nat
    /\ Forall (fun m => role m = user) added.
Proof.
  unfold exec, handleSendText, sendRealtimeInput, console_error. unfold_monad.
  destruct (negb (truthy (trim (inputText s))) || is_null (sessionRef s)
            || negb (status_eqb (status s) CONNECTED)).
  - exists []. cbn. rewrite app_nil_r. repeat split; [lia | constructor].
  - destruct (sessionRef s).
    + destruct (send_throws env); cbn.
      * exists []. rewrite app_nil_r. repeat split; [cbn; lia | constructor].
      * eexists. split; [reflexivity|]. split; [cbn; lia | repeat constructor].
    + exists []. cbn. rewrite app_nil_r. repeat split; [lia | constructor].
Qed.

(** The conversation log only grows, by at most one Message per event: a user
    Message for a sent text, an assistant Message for a completed turn, and
    nothing for any other event; only the clear button removes Messages. *)
Theorem conversation_log_is_append_only (env : Env) (ev : Event) (s : App) :
  ev <> ClearMessages ->
  exists added,
    messages (exec (handle env ev) s) = messages s ++ added
    /\ (List.length added <= 1)%nat
    /\ match ev with
       | SendText => Forall (fun m => role m = user) added
       | ServerMessage _ => Forall (fun m => role m = assistant) added
       | _ => added = []
       end.
Proof.
  intros Hev.
  assert (Hsame : forall s', messages s' = messages s ->
            exists added, messages s' = messages s ++ added
                          /\ (List.length added <= 1)%nat /\ added = []).
  { intros s' H. exists []. rewrite app_nil_r. repeat split; [exact H | cbn; lia]. }
  destruct ev as [| t | | | awaited | | | message | | | source | p inputData];
    cbn [handle].
  - apply handleSendText_messages.
  - apply Hsame. reflexivity.
  - contradiction.
  - apply Hsame. apply handleStartSession_begin_messages.
  - apply Hsame. apply handleStartSession_resume_messages.
  - apply Hsame. apply handleStopSession_fields.
  - apply Hsame. apply callbacks_messages.
  - pose proof (onmessage_chat env message s) as H. cbv zeta in H.
    destruct (sc_flag turnComplete message).
    + destruct H as [H _]. rewrite H.
      destruct (truthy _); eexists; split; try reflexivity;
        split; try (cbn; lia); repeat constructor.
    + destruct H as [H _]. exists []. rewrite H, app_nil_r.
      repeat split; [cbn; lia | constructor].
  - apply Hsame. apply callbacks_messages.
  - apply Hsame. apply callbacks_messages.
  - apply Hsame. apply onended_messages.
  - apply Hsame. unfold exec. rewrite onaudioprocess_eq.
    now destruct (send_throws env).
Qed.

Lemma conversation_log_is_append_only_witness :
  exists added,
    messages (exec (handle (sample_env 4) StopSession) connected)
    = messages connected ++ added
    /\ (List.length added <= 1)%nat /\ added = [].
Proof.
  assert (H : StopSession <> ClearMessages) by discriminate.
  exact (conversation_log_is_append_only (sample_env 4) StopSession connected H).
Defined.

(** A message that carries an outbound and an inbound transcription at once
    only feeds the outbound accumulator: the inbound fragment is dropped.  A
    transcription without a text adds the word undefined. *)
Theorem outbound_fragment_takes_precedence
        (env : Env) (message : LiveServerMessage) (s : App) (t : Transcription) :
  sc_field outputTranscription message = Some t ->
  sc_flag turnComplete message = false ->
  let s' := exec (onmessage env message) s in
  currentOutputTranscriptionRef s'
  = (currentOutputTranscriptionRef s
     ++ match tr_text t with
        | Some fragment => fragment
        | None => "undefined"
        end)%string
  /\ currentInputTranscriptionRef s' = currentInputTranscriptionRef s
  /\ messages s' = messages s.
Proof.
  intros Ht Htc. cbv zeta.
  pose proof (onmessage_chat env message s) as H. cbv zeta in H.
  rewrite Htc in H. destruct H as [Hm [Hout Hin]].
  unfold out_fragment in Hout. unfold in_fragment in Hin. rewrite Ht in Hout, Hin.
  rewrite append_empty in Hin.
  split; [exact Hout | split; [exact Hin | exact Hm]].
Qed.

Lemma outbound_fragment_takes_precedence_witness :
  let message :=
    mkLiveServerMessage
      (Some (mkServerContent (Some (mkTranscription (Some "Hi"%string)))
               (Some (mkTranscription (Some "hello?"%string))) false false None)) in
  let s' := exec (onmessage (sample_env 1) message) connected in
  currentOutputTranscriptionRef s' = "Hi"%string
  /\ currentInputTranscriptionRef s' = EmptyString.
Proof.
  intros message s'.
  pose proof (outbound_fragment_takes_precedence (sample_env 1) message connected
                (mkTranscription (Some "Hi"%string)) eq_refl eq_refl) as [Ho [Hi _]].
  split; [exact Ho | exact Hi].
Defined.

(** A message with nothing in it for the component (no transcription, no
    turn-complete or interrupted flag, no inline audio, or no server content
    at all) changes nothing and does not throw. *)
Theorem message_without_content_changes_nothing
        (env : Env) (message : LiveServerMessage) (s : App) :
  sc_field outputTranscription message = None ->
  sc_field inputTranscription message = None ->
  sc_flag turnComplete message = false ->
  sc_flag interrupted message = false ->
  base64Audio message = None ->
  onmessage env message s = (Ok tt, s).
Proof.
  intros Ho Hi Htc Hint Hb.
  rewrite onmessage_steps. cbv zeta. rewrite Htc, Hint.
  assert (E1 : exec (accumulate_transcription message) s = s).
  { unfold exec, accumulate_transcription. now rewrite Ho, Hi. }
  rewrite E1. unfold exec. rewrite play_audio_eq, Hb. reflexivity.
Qed.

Lemma message_without_content_changes_nothing_witness :
  onmessage (sample_env 1) (mkLiveServerMessage None) connected = (Ok tt, connected).
Proof.
  exact (message_without_content_changes_nothing (sample_env 1)
           (mkLiveServerMessage None) connected eq_refl eq_refl eq_refl eq_refl eq_refl).
Defined.

Lemma wire_codec_round_trip_witness :
  decode (encode ["M"; "a"; "n"]%byte) = Ok ["M"; "a"; "n"]%byte
  /\ (encode ["M"; "a"; "n"]%byte = encode ["M"; "a"; "n"]%byte
      -> ["M"; "a"; "n"]%byte = ["M"; "a"; "n"]%byte).
Proof.
  split.
  - exact (proj1 (wire_codec_round_trip ["M"; "a"; "n"]%byte)).
  - exact (proj2 (wire_codec_round_trip ["M"; "a"; "n"]%byte) ["M"; "a"; "n"]%byte).
Defined.

Lemma start_tears_down_begin (env : Env) (s : App) :
  let s' := exec (handleStartSession_begin env) s in
  exists ctx,
    audioContextRef s' = Some ctx
    /\ activeSourcesRef s' = []
    /\ nextStartTimeRef s' = 0%Q
    /\ transport s' = transport s
    /\ messages s' = messages s
    /\ allocated s' = allocated s.
Proof.
  unfold exec, handleStartSession_begin, start_failed, session_close,
    processor_disconnect, console_error.
  start_cases s env; eexists; repeat split; solve [eassumption | reflexivity].
Qed.

(** A start that goes through, from any state: after the first part of
    [handleStartSession], the open callback and the resolved connect promise
    (with a greeting that is sent without an error), the status is CONNECTED
    and the component is listening; the new session and a capture node bound
    to it are stored; the greeting is the only thing sent, to the new session;
    no unit is active and the watermark is zero; the log is untouched. *)
Theorem started_session_is_ready (env1 env2 env3 : Env) (session : Session) (s : App) :
  send_throws env3 = false ->
  let s' := run [(env1, StartSession); (env2, Open);
                 (env3, StartResumed (Resolved session))] s in
  status s' = CONNECTED
  /\ isListening s' = true
  /\ sessionRef s' = Some session
  /\ (exists n, scriptProcessorRef s' = Some (mkProcessor n session))
  /\ transport s' = transport s ++ [(session, TextInput greeting)]
  /\ (activeSourcesRef s' = [] /\ nextStartTimeRef s' = 0%Q)
  /\ messages s' = messages s.
Proof.
  intros Hsend. cbv zeta. unfold run. cbn [fold_left fst snd handle].
  destruct (start_tears_down_begin env1 s)
    as [ctx [Hctx [Hact [Hw [Htr [Hm Hal]]]]]].
  set (s1 := exec (handleStartSession_begin env1) s) in *.
  assert (Hopen : exec onopen s1
                  = set_isListening true
                      (set_status CONNECTED
                         (set_console
                            (console s1 ++ [(LogInfo, "Lumi Session Socket Opened"%string)])
                            s1))).
  { unfold exec, onopen, console_log. run_handler. reflexivity. }
  rewrite Hopen.
  unfold exec, handleStartSession_resume, start_failed, sendRealtimeInput,
    console_error.
  rewrite Hsend. run_handler. rewrite Hctx. run_handler.
  repeat split; try assumption; try congruence.
  eexists. reflexivity.
Qed.

Lemma started_session_is_ready_witness :
  let s' := run [(sample_env 0, StartSession); (sample_env 0, Open);
                 (sample_env 0, StartResumed (Resolved (mkSession 1)))] initialApp in
  status s' = CONNECTED
  /\ sessionRef s' = Some (mkSession 1)
  /\ transport s' = [(mkSession 1, TextInput greeting)].
Proof.
  intros s'.
  pose proof (started_session_is_ready (sample_env 0) (sample_env 0) (sample_env 0)
                (mkSession 1) initialApp eq_refl) as [Hst [_ [Hse [_ [Ht _]]]]].
  split; [exact Hst | split; [exact Hse | exact Ht]].
Defined.

(** ** The two parts of the message handler *)

(** With nothing handled between its two parts, the handler of a message is
    [onmessage]. *)
Lemma onmessage_begin_resume (env : Env) (message : LiveServerMessage) (s : App) :
  onmessage env message s
  = match onmessage_begin env message s with
    | (Ok (Some suspended), s1) => onmessage_resume env suspended s1
    | (Ok None, s1) => (Ok tt, s1)
    | (Throw e, s1) => (Throw e, s1)
    end.
Proof.
  rewrite onmessage_steps, onmessage_begin_eq. cbv zeta.
  set (s2 := if sc_flag turnComplete message
             then exec (flush_turn env) (exec (accumulate_transcription message) s)
             else exec (accumulate_transcription message) s).
  replace (exec (play_audio env message) s2) with (snd (play_audio env message s2))
    by reflexivity.
  rewrite play_audio_eq, play_audio_begin_eq.
  destruct (base64Audio message) as [base64|]; [|reflexivity].
  destruct (outputAudioContextRef s2) as [ctx|]; [|reflexivity].
  destruct (truthy base64); [|reflexivity].
  rewrite schedule_audio_eq. cbv zeta.
  destruct (decode base64) as [bytes|e]; [|reflexivity].
  rewrite onmessage_resume_eq. cbv zeta. cbn [susp_decoded susp_message snd bind].
  destruct (decodeAudioData bytes 24000 1); reflexivity.
Qed.

(** ** The playback state over interleaved runs *)

Lemma sound_view (s s' : App) :
  playback_view s' = playback_view s -> (allocated s <= allocated s')%nat ->
  sound s -> sound s'.
Proof.
  unfold playback_view, sound.
  intros Hv Ha [Hw [Hs [Hn Ho]]]. injection Hv as -> -> -> _.
  repeat split; try assumption.
  eapply Forall_impl; [|exact Hs]. cbv beta. intros n [H1 H2]. split; [exact H1 | lia].
Qed.

Lemma sound_stopped (s s' : App) :
  nextStartTimeRef s' = 0%Q -> activeSourcesRef s' = [] -> audioOut s' = audioOut s ->
  sound s -> sound s'.
Proof.
  unfold sound. intros -> -> -> [_ [_ [_ Ho]]].
  repeat split; try assumption; try constructor. apply Qle_refl.
Qed.

Lemma sound_rest (s s' : App) :
  rest_view s' = rest_view s -> sound s -> sound s'.
Proof.
  intros Hrest. rest_fields Hrest.
  apply sound_view; [unfold playback_view; congruence | lia].
Qed.

Lemma sound_interrupted (b : bool) (s : App) :
  sound s -> sound (if b then exec stopAllAudio s else s).
Proof.
  intros Hs. destruct b; [|exact Hs].
  destruct (stopAllAudio_fields s) as [_ [Sw [Sa [So _]]]].
  exact (sound_stopped _ _ Sw Sa So Hs).
Qed.

Lemma sound_clamped (env : Env) (s : App) :
  sound s ->
  sound (set_nextStartTimeRef (Math_max (nextStartTimeRef s) (currentTime env))
           (set_isSpeaking true s)).
Proof.
  unfold sound. intros [Hw [Hs [Hn Ho]]]. cbn.
  repeat split; try assumption.
  eapply Qle_trans; [exact Hw | apply Q.le_max_l].
Qed.

Lemma onmessage_begin_sound (env : Env) (message : LiveServerMessage) (s : App) :
  sound s -> sound (snd (onmessage_begin env message s)).
Proof.
  intros Hsound. rewrite onmessage_begin_eq. cbv zeta.
  pose proof (transcript_steps_rest env message s) as Hrest. cbv zeta in Hrest.
  set (s2 := if sc_flag turnComplete message
             then exec (flush_turn env) (exec (accumulate_transcription message) s)
             else exec (accumulate_transcription message) s) in *.
  assert (H2 : sound s2) by (now apply (sound_rest s)).
  rewrite play_audio_begin_eq.
  destruct (base64Audio message) as [base64|];
    [|now apply sound_interrupted].
  destruct (outputAudioContextRef s2) as [ctx|]; [|now apply sound_interrupted].
  destruct (truthy base64); [|now apply sound_interrupted].
  cbv zeta. pose proof (sound_clamped env s2 H2) as H3.
  destruct (decode base64) as [bytes|e]; [exact H3|].
  cbn [snd]. apply sound_interrupted.
  revert H3. apply sound_view; [reflexivity | cbn; lia].
Qed.

Lemma onmessage_resume_sound (env : Env) (suspended : Suspended) (s : App) :
  sound s -> sound (exec (onmessage_resume env suspended) s).
Proof.
  intros Hsound. unfold exec. rewrite onmessage_resume_eq. cbv zeta. cbn [snd].
  apply sound_interrupted.
  destruct (susp_decoded suspended) as [audioBuffer|e].
  - destruct Hsound as [Hw [Hs [Hn Ho]]]. unfold sound. cbn.
    rewrite joined_active_set.
    2:{ eapply Forall_impl; [|exact Hs]. cbv beta. tauto. }
    assert (Hd : (0 <= duration audioBuffer)%Q) by (unfold duration, Qle; cbn; lia).
    repeat split.
    + rewrite <- (Qplus_0_r 0). now apply Qplus_le_compat.
    + apply Forall_app. split.
      * eapply Forall_impl; [|exact Hs]. cbv beta. intros x [H1 H2]. split; [exact H1 | lia].
      * repeat constructor; cbn; lia.
    + rewrite map_app. cbn [map node_id]. apply NoDup_snoc; [exact Hn|].
      intros Hin. apply in_map_iff in Hin. destruct Hin as [x [E Hx]].
      rewrite Forall_forall in Hs. destruct (Hs x Hx) as [_ Hlt]. lia.
    + apply Forall_app. split; [exact Ho|]. constructor; [exact Hw | constructor].
  - revert Hsound. apply sound_view; [reflexivity | cbn; lia].
Qed.

Lemma onmessage_sound (env : Env) (message : LiveServerMessage) (s : App) :
  sound s -> sound (exec (onmessage env message) s).
Proof.
  intros Hsound. unfold exec. rewrite onmessage_begin_resume.
  pose proof (onmessage_begin_sound env message s Hsound) as Hb.
  destruct (onmessage_begin env message s) as [[[suspended|]|e] s1];
    cbn [snd] in *; try exact Hb.
  now apply onmessage_resume_sound.
Qed.

Lemma onended_sound (source : nat) (s : App) :
  sound s -> sound (exec (onended source) s).
Proof.
  unfold sound. intros [Hw [Hs [Hn Ho]]].
  unfold exec. rewrite onended_eq. cbv zeta.
  assert (Hs' : Forall (fun n => node_started n = true /\ (node_id n < allocated s)%nat)
                       (set_delete source (activeSourcesRef s))).
  { apply Forall_forall. intros n Hin. apply filter_In in Hin.
    rewrite Forall_forall in Hs. now apply Hs. }
  assert (Hn' : NoDup (map node_id (set_delete source (activeSourcesRef s))))
    by (now apply distinct_after_delete).
  destruct (List.length (set_delete source (activeSourcesRef s)) =? 0)%nat; cbn;
    repeat split; assumption.
Qed.

Lemma handle_sound (env : Env) (ev : Event) (s : App) :
  sound s -> sound (exec (handle env ev) s).
Proof.
  intros Hsound.
  destruct ev as [| t | | | awaited | | | message | | | source | p inputData];
    cbn [handle].
  - destruct (handleSendText_playback env s) as [Hv Ha].
    apply (sound_view s); [exact Hv | lia | exact Hsound].
  - apply (sound_view s); [reflexivity | cbn; lia | exact Hsound].
  - apply (sound_view s); [reflexivity | cbn; lia | exact Hsound].
  - destruct (handleStartSession_begin_playback env s) as [Hw [Ha [Ho _]]].
    exact (sound_stopped _ _ Hw Ha Ho Hsound).
  - destruct (handleStartSession_resume_playback env awaited s) as [Hv Ha].
    exact (sound_view _ _ Hv Ha Hsound).
  - destruct (handleStopSession_fields env s) as [_ [_ [_ [_ [_ [_ [Ha [Hw _]]]]]]]].
    exact (sound_stopped _ _ Hw Ha (handleStopSession_playback env s) Hsound).
  - destruct (callbacks_playback s) as [Hv _].
    apply (sound_view s); [exact Hv | cbn; lia | exact Hsound].
  - now apply onmessage_sound.
  - destruct (callbacks_playback s) as [_ [Hv _]].
    apply (sound_view s); [exact Hv | cbn; lia | exact Hsound].
  - destruct (callbacks_playback s) as [_ [_ [Hw [Ha Ho]]]].
    exact (sound_stopped _ _ Hw Ha Ho Hsound).
  - now apply onended_sound.
  - unfold exec. rewrite onaudioprocess_eq.
    destruct (send_throws env); [exact Hsound|].
    apply (sound_view s); [reflexivity | cbn; lia | exact Hsound].
Qed.

Lemma step_sound (env : Env) (st : Step) (rt : App * list Suspended) :
  sound (fst rt) -> sound (fst (step env st rt)).
Proof.
  intros Hsound. destruct rt as [s waiting]. cbn [fst snd] in Hsound.
  destruct st as [ev | message |]; cbn [step fst snd].
  - now apply handle_sound.
  - pose proof (onmessage_begin_sound env message s Hsound) as Hb.
    destruct (onmessage_begin env message s) as [[[suspended|]|e] s1]; exact Hb.
  - destruct waiting as [|suspended waiting]; [exact Hsound|].
    now apply onmessage_resume_sound.
Qed.

Lemma interleave_snoc (steps : list (Env * Step)) (es : Env * Step)
      (rt : App * list Suspended) :
  interleave (steps ++ [es]) rt = step (fst es) (snd es) (interleave steps rt).
Proof.
  unfold interleave. now rewrite fold_left_app.
Qed.

Lemma interleave_sound (steps : list (Env * Step)) :
  sound (fst (interleave steps (initialApp, []))).
Proof.
  induction steps as [|es steps IH] using rev_ind.
  - unfold sound. cbn. repeat split; try constructor. apply Qle_refl.
  - rewrite interleave_snoc. now apply step_sound.
Qed.

(** Whatever the component has handled since it was mounted, and wherever the
    suspended handlers of audio messages resumed among the other events: the
    watermark is not negative, every unit of the active set has started, the
    units are distinct, and no unit was ever handed to [source.start] with a
    negative time (which the audio context would refuse). *)
Theorem reachable_playback_is_sound (steps : list (Env * Step)) :
  let s := fst (interleave steps (initialApp, [])) in
  (0 <= nextStartTimeRef s)%Q
  /\ Forall (fun n => node_started n = true) (activeSourcesRef s)
  /\ NoDup (map node_id (activeSourcesRef s))
  /\ Forall (fun c => (0 <= sc_when c)%Q) (audioOut s).
Proof.
  cbv zeta. destruct (interleave_sound steps) as [Hw [Hs [Hn Ho]]].
  repeat split; try assumption.
  eapply Forall_impl; [|exact Hs]. cbv beta. tauto.
Qed.
